(** * expose-pixi-apps: the environment delta engine and the trampoline
      publisher of [src/main.py], embedded and verified.

    Python [str] values are sequences of Unicode code points; they are
    modelled as [list N].  Dictionaries whose iteration order reaches the
    output ([env_vars], [filtered_env], the [config] record) are association
    lists in insertion order; [os.environ] and the file system, which are
    only looked up by key, are [gmap]s. *)

From Stdlib Require Import NArith ZArith List String Ascii Bool Lia.
From stdpp Require Import base option gmap infinite fin_sets.
Import ListNotations.

Set Warnings "-register-all".

Local Open Scope list_scope.

(** ** Python strings *)

Abbreviation str := (list N).

(** A string literal of the source, as its code points. *)
Definition py (s : string) : str := List.map N_of_ascii (list_ascii_of_string s).

Module PyStr.

(** [a == b] on two [str] values. *)
Fixpoint eqb (a b : str) : bool :=
  match a, b with
  | [], [] => true
  | x :: a', y :: b' => N.eqb x y && eqb a' b'
  | _, _ => false
  end.

(** [s.startswith(prefix)] *)
Fixpoint startswith (s prefix : str) {struct prefix} : bool :=
  match prefix, s with
  | [], _ => true
  | p :: prefix', c :: s' => N.eqb c p && startswith s' prefix'
  | _ :: _, [] => false
  end.

(** [s.endswith(suffix)]: the last [len(suffix)] code points of [s] are
    [suffix]. *)
Definition endswith (s suffix : str) : bool :=
  (length suffix <=? length s)%nat
  && eqb (skipn (length s - length suffix) s) suffix.

(** [s[:stop]] for an integer [stop]: a negative bound counts from the
    end, and bounds are clipped to [0 .. len(s)]. *)
Definition slice_to (s : str) (stop : Z) : str :=
  let len := Z.of_nat (length s) in
  let stop' := if (stop <? 0)%Z then Z.max 0 (stop + len) else Z.min stop len in
  firstn (Z.to_nat stop') s.

(** [s.split(sep)] for a one-character separator: one segment more than
    there are separators, empty segments kept. *)
Fixpoint split (sep : N) (s : str) : list str :=
  match s with
  | [] => [[]]
  | c :: r =>
      if N.eqb c sep then [] :: split sep r
      else match split sep r with
           | seg :: segs => (c :: seg) :: segs
           | [] => [[c]]
           end
  end.

(** [sep.join(parts)] *)
Fixpoint join (sep : str) (parts : list str) : str :=
  match parts with
  | [] => []
  | [p] => p
  | p :: rest => p ++ sep ++ join sep rest
  end.

(** Truthiness of a string: [if p] holds for the non-empty ones. *)
Definition truthy (s : str) : bool :=
  match s with [] => false | _ :: _ => true end.

End PyStr.

(** ** The PATH diff of [expose_entry] (lines 140-143) *)

(** [os.pathsep] on the platforms [main] admits ([win32] is rejected): the
    one-character string [":"]. *)
Definition pathsep_char : N := 58.
Definition pathsep : str := [pathsep_char].

(** [new_path = hook_path[: len(hook_path) - len(current_path)]
      if hook_path.endswith(current_path) else hook_path] *)
Definition new_path (hook_path current_path : str) : str :=
  if PyStr.endswith hook_path current_path
  then PyStr.slice_to hook_path
         (Z.of_nat (length hook_path) - Z.of_nat (length current_path))
  else hook_path.

(** The generator [p for p in new_path.split(os.pathsep) if p]. *)
Definition path_segments (hook_path current_path : str) : list str :=
  List.filter PyStr.truthy (PyStr.split pathsep_char (new_path hook_path current_path)).

(** [path_diff = os.pathsep.join(...)] *)
Definition path_diff (hook_path current_path : str) : str :=
  PyStr.join pathsep (path_segments hook_path current_path).


(** ** Exceptions and results *)

(** The exception classes the modelled code can raise. *)
Inductive exn :=
| ValueError (msg : str)
| RuntimeError (msg : str)
| TypeError
| YAMLError
| IsADirectoryError
| FileNotFoundError
| FileExistsError
| PermissionError.

(** A call either returns a value or raises. *)
Inductive result (A : Type) :=
| Ok (a : A)
| Raise (e : exn).
Arguments Ok {A} a.
Arguments Raise {A} e.

(** ** The entry model: [parse_input] (lines 21-46) *)

(** Values [yaml.safe_load] can return (floats and timestamps left out). *)
Inductive yaml :=
| YNull
| YBool (b : bool)
| YInt (z : Z)
| YStr (s : str)
| YSeq (items : list yaml)
| YMap (pairs : list (yaml * yaml)).

(** The dictionary [entry]: the keys ['git'] and ['apps'] are always set,
    the other three only under the guards of [parse_input]. *)
Record entry := {
  git : str;
  apps : list yaml;
  ref : option str;
  environment : option str;
  exclude_env_vars : option (list yaml)
}.

(** [os.environ.get(name, '')] *)
Definition environ_get (environ : gmap str str) (name : str) : str :=
  default [] (environ !! name).

(** [if x := os.environ.get(name, ''): entry[key] = x] *)
Definition optional_input (environ : gmap str str) (name : str) : option str :=
  let x := environ_get environ name in
  if PyStr.truthy x then Some x else None.

Section ParseInput.

(** [yaml.safe_load], a function of PyYAML: it returns a value or raises
    a [YAMLError]. *)
Variable safe_load : str -> result yaml.

Definition parse_input (environ : gmap str str) : result entry :=
  let git_url := environ_get environ (py "INPUT_GIT") in
  if negb (PyStr.truthy git_url) then
    Raise (ValueError (py "'git' input is required"))
  else
  let apps_raw := environ_get environ (py "INPUT_APPS") in
  if negb (PyStr.truthy apps_raw) then
    Raise (ValueError (py "'apps' input is required"))
  else
  match safe_load apps_raw with
  | Raise e => Raise e
  | Ok (YSeq apps) =>
      let ref := optional_input environ (py "INPUT_REF") in
      let env := optional_input environ (py "INPUT_ENVIRONMENT") in
      let exclude_raw := environ_get environ (py "INPUT_EXCLUDE_ENV_VARS") in
      if PyStr.truthy exclude_raw then
        match safe_load exclude_raw with
        | Raise e => Raise e
        | Ok (YSeq exclude) =>
            Ok {| git := git_url; apps := apps; ref := ref;
                  environment := env; exclude_env_vars := Some exclude |}
        | Ok _ =>
            Ok {| git := git_url; apps := apps; ref := ref;
                  environment := env; exclude_env_vars := None |}
        end
      else
        Ok {| git := git_url; apps := apps; ref := ref;
              environment := env; exclude_env_vars := None |}
  | Ok _ => Raise (ValueError (py "'apps' input must be a YAML list"))
  end.

End ParseInput.

(** What PyYAML's [safe_load] returns on the four documents used in the
    examples below: two flow sequences and two plain scalars. *)
Definition sample_safe_load (doc : str) : result yaml :=
  if PyStr.eqb doc (py "[foo]") then Ok (YSeq [YStr (py "foo")])
  else if PyStr.eqb doc (py "[]") then Ok (YSeq [])
  else if PyStr.eqb doc (py "[HOME]") then Ok (YSeq [YStr (py "HOME")])
  else if PyStr.eqb doc (py "HOME") then Ok (YStr (py "HOME"))
  else Raise YAMLError.

(** ** Variable filtering: [_should_exclude] (lines 113-122) *)

(** A dictionary with string keys and values, in insertion order. *)
Abbreviation dict := (list (str * str)).

(** [d.get(key)] *)
Fixpoint dict_get (d : dict) (key : str) : option str :=
  match d with
  | [] => None
  | (k, v) :: rest => if PyStr.eqb k key then Some v else dict_get rest key
  end.

Definition _EXCLUDE_EXACT : list str := [py "PATH"].
Definition _EXCLUDE_PREFIXES : list str := [py "PIXI_"].

(** [key == item] for a string [key] and a loaded YAML item: only a
    string can be equal to a string. *)
Definition yaml_eq_str (key : str) (item : yaml) : bool :=
  match item with
  | YStr s => PyStr.eqb key s
  | _ => false
  end.

Definition _should_exclude (key : str) (extra : option (list yaml)) : bool :=
  if existsb (PyStr.eqb key) _EXCLUDE_EXACT then true
  else if existsb (PyStr.startswith key) _EXCLUDE_PREFIXES then true
  else match extra with
       | None => false
       | Some l => existsb (yaml_eq_str key) l
       end.

(** [{k: v for k, v in env_vars.items() if not _should_exclude(k, exclude)}] *)
Definition filtered_env (env_vars : dict) (exclude : option (list yaml)) : dict :=
  List.filter (fun kv => negb (_should_exclude (fst kv) exclude)) env_vars.

(** ** [pathlib.PurePosixPath] *)

Module PosixPath.

Definition sep_char : N := 47.
Definition sep : str := [sep_char].

(** A parsed path: the root (empty, ["/"] or ["//"]) and the components
    after it. *)
Record t := mk { root : str; parts : list str }.

(** [part.lstrip(sep)] *)
Fixpoint lstrip (s : str) : str :=
  match s with
  | c :: r => if N.eqb c sep_char then lstrip r else s
  | [] => []
  end.

(** [splitroot]: exactly two leading slashes are kept as the root
    ["//"], any other number collapses to ["/"]. *)
Definition splitroot (part : str) : str * str :=
  match part with
  | c :: _ =>
      if N.eqb c sep_char then
        let stripped := lstrip part in
        if (length part - length stripped =? 2)%nat
        then (sep ++ sep, stripped)
        else (sep, stripped)
      else ([], part)
  | [] => ([], [])
  end.

(** A component is kept when it is neither empty nor ["."]. *)
Definition keep (x : str) : bool :=
  PyStr.truthy x && negb (PyStr.eqb x (py ".")).

(** [Path(s)]: the root and the kept components of [s]. *)
Definition Path (s : str) : t :=
  let '(r, rel) := splitroot s in
  mk r (List.filter keep (PyStr.split sep_char rel)).

(** [p / key]: a rooted [key] replaces [p]; otherwise its components are
    appended. *)
Definition truediv (p : t) (key : str) : t :=
  let k := Path key in
  if PyStr.truthy (root k) then k
  else mk (root p) (parts p ++ parts k).

(** [str(p)]; the empty path prints as ["."]. *)
Definition to_str (p : t) : str :=
  let s := root p ++ PyStr.join sep (parts p) in
  if PyStr.truthy s then s else py ".".

(** [p.parent]: the path without its last component. *)
Definition parent (p : t) : t := mk (root p) (removelast (parts p)).

End PosixPath.

Infix "/p" := PosixPath.truediv (at level 40, left associativity).

(** ** JSON text: [json.dumps(config, indent=2)] and its parser *)

Module Json.

(** JSON values; numbers do not occur in the files written here and are
    left out. *)
Inductive value :=
| JNull
| JBool (b : bool)
| JStr (s : str)
| JArr (items : list value)
| JObj (members : list (str * value)).

(** *** Encoding: [json.encoder] with [ensure_ascii=True], [indent=2] *)

(** One hexadecimal digit of ['{0:04x}'.format(n)]. *)
Definition hexdigit (d : N) : N :=
  if (d <? 10)%N then (48 + d)%N else (87 + d)%N.

(** ['\\u{0:04x}'.format(n)] for [n < 0x10000]. *)
Definition escape_u (n : N) : str :=
  [92; 117;
   hexdigit (n / 4096 mod 16); hexdigit (n / 256 mod 16);
   hexdigit (n / 16 mod 16); hexdigit (n mod 16)]%N.

(** The replacement of one code point in [py_encode_basestring_ascii]:
    the table [ESCAPE_DCT] first, printable ASCII unchanged, the rest as
    [\uXXXX], above the basic plane as a surrogate pair. *)
Definition escape_char (c : N) : str :=
  if (c =? 92)%N then py "\\"
  else if (c =? 34)%N then [92; 34]%N
  else if (c =? 8)%N then py "\b"
  else if (c =? 12)%N then py "\f"
  else if (c =? 10)%N then py "\n"
  else if (c =? 13)%N then py "\r"
  else if (c =? 9)%N then py "\t"
  else if ((32 <=? c) && (c <=? 126))%N then [c]
  else if (c <? 65536)%N then escape_u c
  else
    let n := (c - 65536)%N in
    let s1 := N.lor 55296 (N.land (N.shiftr n 10) 1023) in
    let s2 := N.lor 56320 (N.land n 1023) in
    escape_u s1 ++ escape_u s2.

(** ['"' + ESCAPE_ASCII.sub(replace, s) + '"'] *)
Definition encode_string (s : str) : str :=
  [34%N] ++ List.flat_map escape_char s ++ [34%N].

(** ['\n' + _indent * level] with [_indent = '  ']. *)
Definition newline_indent (level : nat) : str :=
  10%N :: List.repeat 32%N (2 * level).

(** [_iterencode] at a given indentation level; the item separator is
    [','] followed by the newline and indentation, the key separator
    [': ']. *)
Fixpoint dumps_at (level : nat) (v : value) : str :=
  match v with
  | JNull => py "null"
  | JBool true => py "true"
  | JBool false => py "false"
  | JStr s => encode_string s
  | JArr [] => py "[]"
  | JArr items =>
      py "[" ++ newline_indent (S level)
      ++ PyStr.join (py "," ++ newline_indent (S level))
           (List.map (dumps_at (S level)) items)
      ++ newline_indent level ++ py "]"
  | JObj [] => py "{}"
  | JObj members =>
      py "{" ++ newline_indent (S level)
      ++ PyStr.join (py "," ++ newline_indent (S level))
           (List.map (fun kv => encode_string (fst kv) ++ py ": "
                                ++ dumps_at (S level) (snd kv)) members)
      ++ newline_indent level ++ py "}"
  end.

Definition dumps (v : value) : str := dumps_at 0 v.

(** *** Decoding: [json.decoder] and [json.scanner] *)

(** The value of one hexadecimal digit. *)
Definition hexval (c : N) : option N :=
  if ((48 <=? c) && (c <=? 57))%N then Some (c - 48)%N
  else if ((97 <=? c) && (c <=? 102))%N then Some (c - 87)%N
  else if ((65 <=? c) && (c <=? 70))%N then Some (c - 55)%N
  else None.

(** [_decode_uXXXX]: four hexadecimal digits. *)
Definition decode_u (a b c d : N) : option N :=
  match hexval a, hexval b, hexval c, hexval d with
  | Some x, Some y, Some z, Some w => Some (x * 4096 + y * 256 + z * 16 + w)%N
  | _, _, _, _ => None
  end.

(** The table [BACKSLASH]. *)
Definition backslash (esc : N) : option N :=
  if (esc =? 34)%N then Some 34%N
  else if (esc =? 92)%N then Some 92%N
  else if (esc =? 47)%N then Some 47%N
  else if (esc =? 98)%N then Some 8%N
  else if (esc =? 102)%N then Some 12%N
  else if (esc =? 110)%N then Some 10%N
  else if (esc =? 114)%N then Some 13%N
  else if (esc =? 116)%N then Some 9%N
  else None.

Definition is_high (u : N) : bool := ((55296 <=? u) && (u <=? 56319))%N.
Definition is_low (u : N) : bool := ((56320 <=? u) && (u <=? 57343))%N.

(** [scanstring] in strict mode, from just after the opening quote:
    the decoded string (accumulated in reverse in [acc]) and the text
    after the closing quote.  A high surrogate escape followed by a low
    surrogate escape is combined into one code point. *)
Fixpoint scanstring (s : str) (acc : str) : option (str * str) :=
  match s with
  | [] => None
  | c :: r =>
      if (c =? 34)%N then Some (rev acc, r)
      else if (c =? 92)%N then
        match r with
        | [] => None
        | esc :: r1 =>
            if negb (esc =? 117)%N then
              match backslash esc with
              | Some ch => scanstring r1 (ch :: acc)
              | None => None
              end
            else
              match r1 with
              | a :: b :: c' :: d :: r2 =>
                  match decode_u a b c' d with
                  | None => None
                  | Some uni =>
                      match r2 with
                      | bs :: u :: r3 =>
                          if is_high uni && (bs =? 92)%N && (u =? 117)%N then
                            match r3 with
                            | a2 :: b2 :: c2 :: d2 :: r4 =>
                                match decode_u a2 b2 c2 d2 with
                                | None => None
                                | Some uni2 =>
                                    if is_low uni2 then
                                      scanstring r4
                                        ((65536 + N.lor (N.shiftl (uni - 55296) 10)
                                                       (uni2 - 56320))%N :: acc)
                                    else scanstring r2 (uni :: acc)
                                end
                            | _ => None
                            end
                          else scanstring r2 (uni :: acc)
                      | _ => scanstring r2 (uni :: acc)
                      end
                  end
              | _ => None
              end
        end
      else if (c <? 32)%N then None
      else scanstring r (c :: acc)
  end.

(** Whitespace between tokens: space, tab, newline, carriage return. *)
Definition is_ws (c : N) : bool :=
  ((c =? 32) || (c =? 9) || (c =? 10) || (c =? 13))%N.

Fixpoint skip_ws (s : str) : str :=
  match s with
  | c :: r => if is_ws c then skip_ws r else s
  | [] => []
  end.

(** The member loop of [JSONObject], entered at the opening quote of a
    key; [members] holds the pairs read so far, in reverse. *)
Fixpoint scan_members (fuel : nat) (scan_once : str -> option (value * str))
         (s : str) (members : list (str * value))
  : option (list (str * value) * str) :=
  match fuel with
  | O => None
  | S fuel' =>
      match s with
      | q :: r =>
          if negb (q =? 34)%N then None else
          match scanstring r [] with
          | None => None
          | Some (key, r1) =>
              match skip_ws r1 with
              | colon :: r2 =>
                  if negb (colon =? 58)%N then None else
                  match scan_once (skip_ws r2) with
                  | None => None
                  | Some (v, r3) =>
                      match skip_ws r3 with
                      | c :: r4 =>
                          if (c =? 125)%N then Some (rev ((key, v) :: members), r4)
                          else if (c =? 44)%N then
                            scan_members fuel' scan_once (skip_ws r4) ((key, v) :: members)
                          else None
                      | [] => None
                      end
                  end
              | [] => None
              end
          end
      | [] => None
      end
  end.

(** The element loop of [JSONArray]. *)
Fixpoint scan_items (fuel : nat) (scan_once : str -> option (value * str))
         (s : str) (items : list value) : option (list value * str) :=
  match fuel with
  | O => None
  | S fuel' =>
      match scan_once s with
      | None => None
      | Some (v, r) =>
          match skip_ws r with
          | c :: r1 =>
              if (c =? 93)%N then Some (rev (v :: items), r1)
              else if (c =? 44)%N then scan_items fuel' scan_once (skip_ws r1) (v :: items)
              else None
          | [] => None
          end
      end
  end.

(** [scan_once]: one value at the head of the text. *)
Fixpoint scan_once (fuel : nat) (s : str) : option (value * str) :=
  match fuel with
  | O => None
  | S fuel' =>
      match s with
      | [] => None
      | c :: r =>
          if (c =? 34)%N then
            match scanstring r [] with
            | Some (x, r') => Some (JStr x, r')
            | None => None
            end
          else if (c =? 123)%N then
            match skip_ws r with
            | c1 :: r1 =>
                if (c1 =? 125)%N then Some (JObj [], r1)
                else match scan_members fuel' (scan_once fuel') (c1 :: r1) [] with
                     | Some (ms, r') => Some (JObj ms, r')
                     | None => None
                     end
            | [] => None
            end
          else if (c =? 91)%N then
            match skip_ws r with
            | c1 :: r1 =>
                if (c1 =? 93)%N then Some (JArr [], r1)
                else match scan_items fuel' (scan_once fuel') (c1 :: r1) [] with
                     | Some (xs, r') => Some (JArr xs, r')
                     | None => None
                     end
            | [] => None
            end
          else if PyStr.startswith s (py "null") then Some (JNull, skipn 4 s)
          else if PyStr.startswith s (py "true") then Some (JBool true, skipn 4 s)
          else if PyStr.startswith s (py "false") then Some (JBool false, skipn 5 s)
          else None
      end
  end.

(** [json.loads]: one value, surrounded by whitespace only.  The fuel
    bounds the nesting depth and the number of members by the length of
    the text. *)
Definition loads (s : str) : option value :=
  match scan_once (S (length s)) (skip_ws s) with
  | Some (v, r) => match skip_ws r with [] => Some v | _ :: _ => None end
  | None => None
  end.

End Json.

(** ** The trampoline configuration record *)

Module Config.

(** [config = {'exe': ..., 'path_diff': ..., 'env': ...}] *)
Record t := mk { exe : str; path_diff : str; env : dict }.

(** The record as the JSON encoder sees it: a dictionary of two strings
    and a dictionary of strings, in insertion order. *)
Definition to_json (c : t) : Json.value :=
  Json.JObj
    [(py "exe", Json.JStr (exe c));
     (py "path_diff", Json.JStr (path_diff c));
     (py "env", Json.JObj (List.map (fun kv => (fst kv, Json.JStr (snd kv))) (env c)))].

(** [d[key] = v] on an insertion-ordered dictionary: an existing key keeps
    its place and takes the new value. *)
Fixpoint dict_set {V : Type} (d : list (str * V)) (key : str) (v : V) : list (str * V) :=
  match d with
  | [] => [(key, v)]
  | (k, x) :: rest =>
      if PyStr.eqb k key then (k, v) :: rest else (k, x) :: dict_set rest key v
  end.

(** The dictionary the decoder builds from the members of an object. *)
Definition dict_of_pairs {V : Type} (members : list (str * V)) : list (str * V) :=
  fold_left (fun d kv => dict_set d (fst kv) (snd kv)) members [].

Fixpoint lookup {V : Type} (d : list (str * V)) (key : str) : option V :=
  match d with
  | [] => None
  | (k, v) :: rest => if PyStr.eqb k key then Some v else lookup rest key
  end.

Definition as_str (v : Json.value) : option str :=
  match v with Json.JStr s => Some s | _ => None end.

(** A dictionary of strings, when every value is one. *)
Fixpoint as_dict (d : list (str * Json.value)) : option dict :=
  match d with
  | [] => Some []
  | (k, v) :: rest =>
      match as_str v, as_dict rest with
      | Some s, Some rest' => Some ((k, s) :: rest')
      | _, _ => None
      end
  end.

(** Reading a configuration file back: parse the text and take the three
    fields of the record. *)
Definition of_text (text : str) : option t :=
  match Json.loads text with
  | Some (Json.JObj members) =>
      let d := dict_of_pairs members in
      match lookup d (py "exe"), lookup d (py "path_diff"), lookup d (py "env") with
      | Some (Json.JStr e), Some (Json.JStr pd), Some (Json.JObj env_members) =>
          match as_dict (dict_of_pairs env_members) with
          | Some ev => Some (mk e pd ev)
          | None => None
          end
      | _, _, _ => None
      end
  | _ => None
  end.

End Config.

(** ** The file system under the shared bin directory *)

(** Directories, directory entries of regular files (a name and the inode
    it is linked to) and the contents of inodes.  Paths are the strings
    [pathlib] hands to the operating system; [".."] and symbolic links are
    not resolved, and a parent that is not a directory is reported like a
    missing one. *)
Record fs := mkfs {
  dirs : gset str;
  names : gmap str N;
  data : gmap N str
}.

(** A computation on the file system: it returns or raises, and leaves
    the file system as it is at that point. *)
Definition io (A : Type) : Type := fs -> result A * fs.

Definition io_ret {A} (a : A) : io A := fun f => (Ok a, f).
Definition io_raise {A} (e : exn) : io A := fun f => (Raise e, f).
Definition io_bind {A B} (m : io A) (k : A -> io B) : io B :=
  fun f => match m f with
           | (Ok a, f') => k a f'
           | (Raise e, f') => (Raise e, f')
           end.

Notation "m ;;; k" := (io_bind m (fun _ => k))
  (at level 100, k at level 200, right associativity).

(** [for x in l: body(x)] *)
Fixpoint for_each {A} (body : A -> io unit) (l : list A) : io unit :=
  match l with
  | [] => io_ret tt
  | x :: rest => body x ;;; for_each body rest
  end.

(** An inode number not in use. *)
Definition fresh_inode (f : fs) : N :=
  fresh (dom (data f) ∪ (map_img (names f) : gset N)).

(** [path.write_text(text)]: open for writing, which truncates the inode
    the name is linked to or creates a new one, and write. *)
Definition write_text (path : PosixPath.t) (text : str) : io unit := fun f =>
  let key := PosixPath.to_str path in
  if decide (key ∈ dirs f) then (Raise IsADirectoryError, f)
  else if decide (PosixPath.to_str (PosixPath.parent path) ∈ dirs f) then
    match names f !! key with
    | Some i => (Ok tt, mkfs (dirs f) (names f) (<[i := text]> (data f)))
    | None =>
        let i := fresh_inode f in
        (Ok tt, mkfs (dirs f) (<[key := i]> (names f)) (<[i := text]> (data f)))
    end
  else (Raise FileNotFoundError, f).

(** [path.unlink(missing_ok=True)] *)
Definition unlink (path : PosixPath.t) : io unit := fun f =>
  let key := PosixPath.to_str path in
  if decide (key ∈ dirs f) then (Raise IsADirectoryError, f)
  else (Ok tt, mkfs (dirs f) (delete key (names f)) (data f)).

(** [os.link(src, dst)]: a second name for the inode of [src]. *)
Definition link (src dst : PosixPath.t) : io unit := fun f =>
  let s := PosixPath.to_str src in
  let d := PosixPath.to_str dst in
  match names f !! s with
  | None =>
      if decide (s ∈ dirs f) then (Raise PermissionError, f)
      else (Raise FileNotFoundError, f)
  | Some i =>
      if decide (d ∈ dirs f) then (Raise FileExistsError, f)
      else match names f !! d with
           | Some _ => (Raise FileExistsError, f)
           | None =>
               if decide (PosixPath.to_str (PosixPath.parent dst) ∈ dirs f)
               then (Ok tt, mkfs (dirs f) (<[d := i]> (names f)) (data f))
               else (Raise FileNotFoundError, f)
           end
  end.

(** The contents of the file a path names. *)
Definition read_text (f : fs) (path : PosixPath.t) : option str :=
  match names f !! PosixPath.to_str path with
  | Some i => data f !! i
  | None => None
  end.

(** The inode a path is linked to. *)
Definition inode_of (f : fs) (path : PosixPath.t) : option N :=
  names f !! PosixPath.to_str path.

(** ** [expose_entry] (lines 125-164) *)

Section ExposeEntry.

(** [os.environ] and [Path.home()] of the running process. *)
Variable environ : gmap str str.
Variable home : str.

(** [Path(os.environ.get('PIXI_HOME', Path.home() / '.pixi'))] *)
Definition get_pixi_home : PosixPath.t :=
  match environ !! py "PIXI_HOME" with
  | Some h => PosixPath.Path h
  | None => PosixPath.Path home /p py ".pixi"
  end.

Definition get_trampoline_bin : PosixPath.t :=
  get_pixi_home /p py "bin" /p py "trampoline_configuration" /p py "trampoline_bin".

Definition bin_dir : PosixPath.t := get_pixi_home /p py "bin".
Definition config_dir : PosixPath.t := bin_dir /p py "trampoline_configuration".

(** [config_dir / f'{app}.json'] *)
Definition config_path (app : str) : PosixPath.t := config_dir /p (app ++ py ".json").

(** [bin_dir / app] *)
Definition link_path (app : str) : PosixPath.t := bin_dir /p app.

(** The three kinds of path as the strings handed to the operating
    system. *)
Definition dispatch_key : str := PosixPath.to_str get_trampoline_bin.
Definition config_key (app : str) : str := PosixPath.to_str (config_path app).
Definition link_key (app : str) : str := PosixPath.to_str (link_path app).

(** [str(Path(conda_prefix) / 'bin' / app)] *)
Definition exe_path (conda_prefix app : str) : str :=
  PosixPath.to_str (PosixPath.Path conda_prefix /p py "bin" /p app).

(** The record written for one executable. *)
Definition trampoline_config (conda_prefix pdiff : str) (fenv : dict) (app : str) : Config.t :=
  Config.mk (exe_path conda_prefix app) pdiff fenv.

(** [json.dumps(config, indent=2)] for that record. *)
Definition config_text (conda_prefix pdiff : str) (fenv : dict) (app : str) : str :=
  Json.dumps (Config.to_json (trampoline_config conda_prefix pdiff fenv app)).

(** The body of the loop over [entry['apps']].  An item that is not a
    string makes the [/] of [pathlib] raise before anything is written. *)
Definition publish_app (conda_prefix pdiff : str) (fenv : dict) (app : yaml) : io unit :=
  match app with
  | YStr name =>
      write_text (config_path name)
        (Json.dumps (Config.to_json (trampoline_config conda_prefix pdiff fenv name))) ;;;
      unlink (link_path name) ;;;
      link get_trampoline_bin (link_path name)
  | _ => io_raise TypeError
  end.

(** [str(entry.get('environment', 'default'))] *)
Definition environment_name (e : entry) : str :=
  default (py "default") (environment e).

Definition missing_prefix_message (env_name : str) : str :=
  py "CONDA_PREFIX not found in shell-hook output for environment '"
  ++ env_name ++ py "'".

(** [expose_entry] from the point where the shell hook has returned:
    [env_vars] is [hook['environment_variables']].  Cloning, installing
    and the hook itself are calls to external tools, and the progress
    lines printed are not part of the state. *)
Definition expose_entry (env_vars : dict) (e : entry) : io unit :=
  match dict_get env_vars (py "CONDA_PREFIX") with
  | Some (c :: cs) =>
      let conda_prefix := c :: cs in
      let hook_path := default [] (dict_get env_vars (py "PATH")) in
      let current_path := environ_get environ (py "PATH") in
      let pdiff := path_diff hook_path current_path in
      let fenv := filtered_env env_vars (exclude_env_vars e) in
      for_each (publish_app conda_prefix pdiff fenv) (apps e)
  | _ => io_raise (RuntimeError (missing_prefix_message (environment_name e)))
  end.

End ExposeEntry.

(** ** Sample inputs *)

(** Action inputs with an exclusion that is a YAML scalar, not a list. *)
Definition inputs_scalar_exclusion : gmap str str :=
  {[ py "INPUT_GIT" := py "https://example.org/tool.git";
     py "INPUT_APPS" := py "[foo]";
     py "INPUT_EXCLUDE_ENV_VARS" := py "HOME" ]}.

(** Action inputs whose list of executables is the empty YAML list. *)
Definition inputs_empty_apps : gmap str str :=
  {[ py "INPUT_GIT" := py "https://example.org/tool.git";
     py "INPUT_APPS" := py "[]" ]}.

(** Well-formed action inputs with every optional field set. *)
Definition inputs_full : gmap str str :=
  {[ py "INPUT_GIT" := py "https://example.org/tool.git";
     py "INPUT_APPS" := py "[foo]";
     py "INPUT_REF" := py "v1";
     py "INPUT_ENVIRONMENT" := py "dev";
     py "INPUT_EXCLUDE_ENV_VARS" := py "[HOME]" ]}.

(** ** Plain names and normalised paths *)

(** A name that is a single path component: non-empty, not ["."] and
    without a separator. *)
Definition plain_name (x : str) : bool :=
  PosixPath.keep x && negb (existsb (N.eqb PosixPath.sep_char) x).

(** A path string that [pathlib] prints back unchanged and that has at
    least one component after its root. *)
Definition normal_path (s : str) : bool :=
  PyStr.eqb (PosixPath.to_str (PosixPath.Path s)) s
  && match PosixPath.parts (PosixPath.Path s) with [] => false | _ :: _ => true end.

(** ** Strings that survive the JSON text *)

(** Code points in range, and no high surrogate directly followed by a
    low one: the strings a JSON decoder or a UTF-8 decoder can produce.
    (A decoder combines an escaped surrogate pair into one code point.) *)
Fixpoint json_text (s : str) : bool :=
  match s with
  | [] => true
  | c :: r =>
      (c <? 1114112)%N
      && negb (Json.is_high c && match r with d :: _ => Json.is_low d | [] => false end)
      && json_text r
  end.

(** A dictionary all of whose names and values are such strings. *)
Definition json_dict (d : dict) : bool :=
  forallb (fun kv => json_text (fst kv) && json_text (snd kv)) d.

(** ** A sample run *)

(** The process environment: [PIXI_HOME] is [/h]. *)
Definition sample_environ : gmap str str :=
  {[ py "PIXI_HOME" := py "/h"; py "PATH" := py "/usr/bin:/bin" ]}.

Definition sample_home : str := py "/home/user".

(** The environment the shell hook reports for a prefix [/p]. *)
Definition sample_captured : dict :=
  [(py "PATH", py "/p/bin:/usr/bin:/bin");
   (py "CONDA_PREFIX", py "/p");
   (py "PIXI_PROJECT_NAME", py "tool");
   (py "FOO", py "1")].

Definition captured_without_prefix : dict :=
  [(py "PATH", py "/p/bin:/usr/bin:/bin"); (py "FOO", py "1")].

Definition captured_empty_prefix : dict :=
  [(py "PATH", py "/p/bin:/usr/bin:/bin"); (py "CONDA_PREFIX", []); (py "FOO", py "1")].

(** An entry with the given executables and no optional field. *)
Definition entry_of_apps (l : list yaml) : entry :=
  {| git := py "https://example.org/tool.git"; apps := l;
     ref := None; environment := None; exclude_env_vars := None |}.

(** The shared bin directory with the dispatch binary in place; inode 1
    holds the binary. *)
Definition sample_fs : fs :=
  mkfs {[ py "/h/bin"; py "/h/bin/trampoline_configuration"; py "/usr/bin" ]}
       {[ py "/h/bin/trampoline_configuration/trampoline_bin" := 1%N ]}
       {[ 1%N := py "ELF" ]}.

(** Two executables, the second of which is named by the path of the
    first one's configuration file. *)
Definition colliding_apps : list yaml :=
  [YStr (py "foo"); YStr (py "/h/bin/trampoline_configuration/foo.json")].

(** The run of [expose_entry] on the sample inputs. *)
Definition sample_run (l : list yaml) : io unit :=
  expose_entry sample_environ sample_home sample_captured (entry_of_apps l).

(** ** Notions used in the proofs *)

(** The text after a high surrogate escape does not continue with the
    escape of a low surrogate. *)
Definition no_low_escape (r : str) : Prop :=
  match r with
  | bs :: u :: r3 =>
      bs = 92%N -> u = 117%N ->
      exists a b c d r4 uni2,
        r3 = a :: b :: c :: d :: r4
        /\ Json.decode_u a b c d = Some uni2 /\ Json.is_low uni2 = false
  | _ => True
  end.

(** The four shapes of [Json.escape_char c], each with what the scanner
    needs to know about it. *)
Inductive escape_shape (c : N) : str -> Prop :=
| shape_simple esc :
    esc <> 117%N -> Json.backslash esc = Some c -> escape_shape c [92%N; esc]
| shape_plain :
    c <> 34%N -> c <> 92%N -> (32 <= c)%N -> escape_shape c [c]
| shape_u a b c' d :
    Json.decode_u a b c' d = Some c -> escape_shape c [92%N; 117%N; a; b; c'; d]
| shape_pair a b c' d a2 b2 c2 d2 hi lo :
    Json.decode_u a b c' d = Some hi -> Json.is_high hi = true ->
    Json.decode_u a2 b2 c2 d2 = Some lo -> Json.is_low lo = true ->
    (65536 + N.lor (N.shiftl (hi - 55296) 10) (lo - 56320))%N = c ->
    Json.is_high c = false ->
    escape_shape c [92%N; 117%N; a; b; c'; d; 92%N; 117%N; a2; b2; c2; d2].

(** The text of one member of an object at a given level. *)
Definition member_text (level : nat) (kv : str * Json.value) : str :=
  Json.encode_string (fst kv) ++ py ": " ++ Json.dumps_at level (snd kv).

(** A parsed path whose root is made of separators and whose components
    are decoder output. *)
Definition path_ok (p : PosixPath.t) : Prop :=
  (PosixPath.root p = [] \/ PosixPath.root p = PosixPath.sep
   \/ PosixPath.root p = PosixPath.sep ++ PosixPath.sep)
  /\ Forall (fun x => json_text x = true) (PosixPath.parts p).

(** The contents written by a run, as the list of inode updates: for each
    name, the inode its configuration path is linked to in [nm]. *)
Definition writes (key : str -> str) (text : str -> str)
           (nm : gmap str N) (l : list yaml) : list (N * str) :=
  List.flat_map
    (fun app => match app with
                | YStr a => match nm !! key a with
                            | Some j => [(j, text a)]
                            | None => []
                            end
                | _ => []
                end) l.

Definition apply_writes (ops : list (N * str)) (d : gmap N str) : gmap N str :=
  fold_left (fun d op => <[fst op := snd op]> d) ops d.

(** What the directories must allow for a name to be published. *)
Definition publishable (environ : gmap str str) (home : str)
           (d : gset str) (a : str) : Prop :=
  (config_key environ home a ∉ d)
  /\ (PosixPath.to_str (PosixPath.parent (config_path environ home a)) ∈ d)
  /\ (link_key environ home a ∉ d)
  /\ (PosixPath.to_str (PosixPath.parent (link_path environ home a)) ∈ d).

(** The string every path below the shared bin directory starts with. *)
Definition bin_stem (environ : gmap str str) (home : str) : str :=
  PosixPath.root (get_pixi_home environ home)
  ++ PyStr.join PosixPath.sep
       (PosixPath.parts (get_pixi_home environ home) ++ [py "bin"])
  ++ PosixPath.sep.

(** ** The repository stager: [clone_repo] (lines 72-87) *)

Module PyStrMore.

(** [s.rstrip(c)] for a one-character set. *)
Fixpoint rstrip (c : N) (s : str) : str :=
  match s with
  | [] => []
  | x :: r =>
      match rstrip c r with
      | [] => if N.eqb x c then [] else [x]
      | r' => x :: r'
      end
  end.

(** [s.rsplit(sep, 1)] for a one-character separator: the text before
    and after the last separator, or the string alone. *)
Fixpoint rsplit1 (sep : N) (s : str) : list str :=
  match s with
  | [] => [[]]
  | x :: r =>
      match rsplit1 sep r with
      | [head; tail] => [x :: head; tail]
      | _ => if N.eqb x sep then [[]; r] else [x :: r]
      end
  end.

(** [s.removesuffix(suffix)] *)
Definition removesuffix (s suffix : str) : str :=
  if PyStr.truthy suffix && PyStr.endswith s suffix
  then PyStr.slice_to s (- Z.of_nat (length suffix))
  else s.

End PyStrMore.

(** [Path(os.environ.get('RUNNER_TEMP', '/tmp')) / 'expose-pixi-apps'] *)
Definition get_clone_base_dir (environ : gmap str str) : PosixPath.t :=
  PosixPath.Path (default (py "/tmp") (environ !! py "RUNNER_TEMP"))
  /p py "expose-pixi-apps".

(** [git_url.rstrip('/').rsplit('/', 1)[-1].removesuffix('.git')] *)
Definition repo_name (git_url : str) : str :=
  PyStrMore.removesuffix
    (List.last (PyStrMore.rsplit1 PosixPath.sep_char
                  (PyStrMore.rstrip PosixPath.sep_char git_url)) [])
    (py ".git").

Definition clone_dir (environ : gmap str str) (e : entry) : PosixPath.t :=
  get_clone_base_dir environ /p repo_name (git e).

(** [git_args]: a shallow clone, of the branch [ref] when the entry has a
    non-empty one. *)
Definition git_args (e : entry) : list str :=
  [py "--depth"; py "1"]
  ++ match ref e with
     | Some r => if PyStr.truthy r then [py "--branch"; r] else []
     | None => []
     end.

(** The command [clone_repo] runs. *)
Definition clone_cmd (environ : gmap str str) (e : entry) : list str :=
  [py "git"; py "clone"] ++ git_args e
  ++ [git e; PosixPath.to_str (clone_dir environ e)].

(** ** The provisioner and the inspector: [pixi_install], [get_shell_hook]
       (lines 90-110) *)

(** [cmd.extend(['-e', environment])] under
    [if environment and environment != 'default']. *)
Definition environment_args (environment : option str) : list str :=
  match environment with
  | Some x =>
      if PyStr.truthy x && negb (PyStr.eqb x (py "default"))
      then [py "-e"; x] else []
  | None => []
  end.

Definition pixi_install_cmd (pixi : str) (dir : PosixPath.t)
           (environment : option str) : list str :=
  [pixi; py "install"; py "--manifest-path";
   PosixPath.to_str (dir /p py "pixi.toml")]
  ++ environment_args environment.

Definition shell_hook_cmd (pixi : str) (dir : PosixPath.t)
           (environment : option str) : list str :=
  [pixi; py "shell-hook"; py "--json"; py "--manifest-path";
   PosixPath.to_str (dir /p py "pixi.toml")]
  ++ environment_args environment.

(** The two commands as [expose_entry] issues them for an entry: both get
    [str(entry.get('environment', 'default'))]. *)
Definition entry_install_cmd (environ : gmap str str) (pixi : str) (e : entry) : list str :=
  pixi_install_cmd pixi (clone_dir environ e) (Some (environment_name e)).

Definition entry_shell_hook_cmd (environ : gmap str str) (pixi : str) (e : entry) : list str :=
  shell_hook_cmd pixi (clone_dir environ e) (Some (environment_name e)).

(** [hook['environment_variables']] of [json.loads(result.stdout)], when
    the output is an object whose member of that name is an object of
    strings; [None] stands for every other output. *)
Definition hook_environment (stdout : str) : option dict :=
  match Json.loads stdout with
  | Some (Json.JObj members) =>
      match Config.lookup (Config.dict_of_pairs members) (py "environment_variables") with
      | Some (Json.JObj vars) => Config.as_dict (Config.dict_of_pairs vars)
      | _ => None
      end
  | _ => None
  end.

(** Text as a strict UTF-8 decoder produces it: code points in range,
    none of them a surrogate. *)
Definition scalar_text (s : str) : bool :=
  forallb (fun c => (c <? 1114112)%N && negb (Json.is_high c || Json.is_low c)) s.

(** The string items of a loaded YAML list. *)
Definition string_items (l : list yaml) : list str :=
  List.flat_map (fun item => match item with YStr s => [s] | _ => [] end) l.

(** The entry [parse_input] returns on [inputs_full]. *)
Definition parsed_full : entry :=
  {| git := py "https://example.org/tool.git"; apps := [YStr (py "foo")];
     ref := Some (py "v1"); environment := Some (py "dev");
     exclude_env_vars := Some [YStr (py "HOME")] |}.

(** An entry with another list of executables. *)
Definition with_apps (e : entry) (l : list yaml) : entry :=
  {| git := git e; apps := l; ref := ref e;
     environment := environment e; exclude_env_vars := exclude_env_vars e |}.

(** The file system after the configuration of a name is written to
    inode [j] and its link is removed. *)
Definition after_unlink (environ : gmap str str) (home : str)
           (a text : str) (j : N) (f : fs) : fs :=
  mkfs (dirs f)
       (delete (link_key environ home a) (<[config_key environ home a := j]> (names f)))
       (<[j := text]> (data f)).

(** The same once the link is on inode [t]. *)
Definition after_link (environ : gmap str str) (home : str)
           (a text : str) (j t : N) (f : fs) : fs :=
  mkfs (dirs f)
       (<[link_key environ home a := t]> (<[config_key environ home a := j]> (names f)))
       (<[j := text]> (data f)).

(** The inode [write_text] writes to: the one the name is linked to, or a
    fresh one. *)
Definition write_inode (key : str) (f : fs) : N :=
  match names f !! key with
  | Some j => j
  | None => fresh_inode f
  end.

(** Text made of newlines and printable ASCII characters only. *)
Definition printable_text (s : str) : bool :=
  forallb (fun c => (c =? 10)%N || ((32 <=? c)%N && (c <=? 126)%N)) s.

(** A decoded value all of whose strings, member names included, survive
    the JSON text. *)
Fixpoint value_ok (v : Json.value) : Prop :=
  match v with
  | Json.JNull | Json.JBool _ => True
  | Json.JStr s => json_text s = true
  | Json.JArr items =>
      (fix all (l : list Json.value) : Prop :=
         match l with
         | [] => True
         | x :: r => value_ok x /\ all r
         end) items
  | Json.JObj members =>
      (fix all (l : list (str * Json.value)) : Prop :=
         match l with
         | [] => True
         | kv :: r => (json_text (fst kv) = true /\ value_ok (snd kv)) /\ all r
         end) members
  end.

(** A member with such a name and such a value. *)
Definition member_ok (kv : str * Json.value) : Prop :=
  json_text (fst kv) = true /\ value_ok (snd kv).

(** After a high surrogate at the head of the reversed output, the input
    does not continue with the escape of a low one. *)
Definition tail_ok (acc s : str) : Prop :=
  match acc with
  | h :: _ => Json.is_high h = true -> no_low_escape s
  | [] => True
  end.

(** The bin directory before the dispatch binary is installed, with a
    link for [foo] left by an earlier publication. *)
Definition fs_without_dispatch : fs :=
  mkfs {[ py "/h/bin"; py "/h/bin/trampoline_configuration" ]}
       {[ py "/h/bin/foo" := 5%N ]}
       {[ 5%N := py "ELF" ]}.

(** An output of the shell hook: the captured sample environment as JSON
    text. *)
Definition sample_hook_stdout : str :=
  Json.dumps
    (Json.JObj
       [(py "environment_variables",
         Json.JObj (List.map (fun kv => (fst kv, Json.JStr (snd kv))) sample_captured))]).

(** * Properties of the string operations *)

Lemma eqb_eq (a b : str) : PyStr.eqb a b = true <-> a = b.
Proof.
  revert b. induction a as [|x a IH]; intros [|y b]; simpl; split; try congruence; try done.
  - intros [Hx Hab]%andb_true_iff. apply N.eqb_eq in Hx. apply IH in Hab. congruence.
  - intros [= -> ->]. rewrite N.eqb_refl. simpl. by apply IH.
Qed.

Lemma eqb_refl (a : str) : PyStr.eqb a a = true.
Proof. by apply eqb_eq. Qed.

Lemma eqb_neq (a b : str) : PyStr.eqb a b = false <-> a <> b.
Proof.
  split.
  - intros H E. apply eqb_eq in E. congruence.
  - intros H. destruct (PyStr.eqb a b) eqn:E; [|done]. apply eqb_eq in E. done.
Qed.

Lemma startswith_spec (s p : str) :
  PyStr.startswith s p = true <-> exists r, s = p ++ r.
Proof.
  revert s. induction p as [|c p IH]; intros s; simpl.
  - split; [intros _; by exists s | done].
  - destruct s as [|x s].
    + split; [done|]. intros [r Hr]. discriminate.
    + rewrite andb_true_iff, N.eqb_eq, IH. split.
      * intros [-> [r ->]]. eauto.
      * intros [r [= -> ->]]. eauto.
Qed.

Lemma endswith_spec (s suffix : str) :
  PyStr.endswith s suffix = true <-> exists p, s = p ++ suffix.
Proof.
  unfold PyStr.endswith. rewrite andb_true_iff, Nat.leb_le, eqb_eq. split.
  - intros [Hle Hs]. exists (firstn (length s - length suffix) s).
    rewrite <- (firstn_skipn (length s - length suffix) s) at 1. by rewrite Hs.
  - intros [p ->]. rewrite length_app. split; [lia|].
    replace (length p + length suffix - length suffix) with (length p) by lia.
    rewrite skipn_app, Nat.sub_diag, skipn_all. done.
Qed.

Lemma slice_to_app (p q : str) :
  PyStr.slice_to (p ++ q) (Z.of_nat (length (p ++ q)) - Z.of_nat (length q)) = p.
Proof.
  unfold PyStr.slice_to. rewrite length_app.
  destruct (Z.ltb_spec (Z.of_nat (length p + length q) - Z.of_nat (length q)) 0); [lia|].
  replace (Z.to_nat _) with (length p) by lia.
  rewrite firstn_app, Nat.sub_diag, firstn_all. simpl. by rewrite app_nil_r.
Qed.

Lemma new_path_suffix (p ambient : str) : new_path (p ++ ambient) ambient = p.
Proof.
  unfold new_path.
  replace (PyStr.endswith (p ++ ambient) ambient) with true
    by (symmetry; apply endswith_spec; eauto).
  apply slice_to_app.
Qed.

Lemma new_path_no_suffix (hook ambient : str) :
  (forall p, hook <> p ++ ambient) -> new_path hook ambient = hook.
Proof.
  intros H. unfold new_path.
  destruct (PyStr.endswith hook ambient) eqn:E; [|done].
  apply endswith_spec in E as [p Hp]. by destruct (H p).
Qed.

Section Split.

Variable sep : N.

Lemma split_not_nil (s : str) : PyStr.split sep s <> [].
Proof.
  destruct s as [|c s]; simpl; [done|].
  destruct (N.eqb c sep); [done|]. by destruct (PyStr.split sep s).
Qed.

Lemma split_cons_sep (s : str) : PyStr.split sep (sep :: s) = [] :: PyStr.split sep s.
Proof. simpl. by rewrite N.eqb_refl. Qed.

Lemma split_cons_other (c : N) (s : str) :
  c <> sep ->
  PyStr.split sep (c :: s)
  = (c :: hd [] (PyStr.split sep s)) :: tl (PyStr.split sep s).
Proof.
  intros Hc. simpl. apply N.eqb_neq in Hc. rewrite Hc.
  pose proof (split_not_nil s). by destruct (PyStr.split sep s).
Qed.

Lemma split_no_sep (s : str) : Forall (fun x => ~ In sep x) (PyStr.split sep s).
Proof.
  induction s as [|c s IH].
  - simpl. constructor; [|constructor]. intros [].
  - destruct (N.eq_dec c sep) as [->|Hc].
    + rewrite split_cons_sep. constructor; [|done]. intros [].
    + rewrite split_cons_other by done.
      pose proof (split_not_nil s) as Hn.
      destruct (PyStr.split sep s) as [|h t]; [done|]. simpl.
      inversion IH; subst. constructor; [|done].
      intros [E|Hin]; [congruence|done].
Qed.

Lemma join_cons (x : str) (l : list str) :
  l <> [] -> PyStr.join [sep] (x :: l) = x ++ sep :: PyStr.join [sep] l.
Proof. by destruct l. Qed.

Lemma join_split (s : str) : PyStr.join [sep] (PyStr.split sep s) = s.
Proof.
  induction s as [|c s IH]; [done|].
  pose proof (split_not_nil s) as Hn.
  destruct (N.eq_dec c sep) as [->|Hc].
  - rewrite split_cons_sep, join_cons by done. simpl. by rewrite IH.
  - rewrite split_cons_other by done.
    destruct (PyStr.split sep s) as [|h t]; [done|]. simpl in *.
    destruct t; simpl in *; by rewrite <- IH.
Qed.

Lemma split_no_sep_app (a b : str) :
  ~ In sep a ->
  PyStr.split sep (a ++ b)
  = (a ++ hd [] (PyStr.split sep b)) :: tl (PyStr.split sep b).
Proof.
  induction a as [|c a IH]; intros Ha.
  - simpl. pose proof (split_not_nil b). by destruct (PyStr.split sep b).
  - rewrite <- app_comm_cons, split_cons_other by (intros ->; apply Ha; by left).
    rewrite IH by (intros H; apply Ha; by right). done.
Qed.

Lemma split_no_sep_id (a : str) : ~ In sep a -> PyStr.split sep a = [a].
Proof.
  intros Ha. rewrite <- (app_nil_r a) at 1.
  rewrite split_no_sep_app by done. simpl. by rewrite app_nil_r.
Qed.

Lemma split_join (l : list str) :
  l <> [] -> Forall (fun x => ~ In sep x) l ->
  PyStr.split sep (PyStr.join [sep] l) = l.
Proof.
  induction l as [|x l IH]; [done|]. intros _ Hall.
  inversion Hall as [|? ? Hx Hl]; subst.
  destruct l as [|y l].
  - simpl. by apply split_no_sep_id.
  - rewrite join_cons by done.
    rewrite split_no_sep_app by done.
    rewrite split_cons_sep. cbn [hd tl]. rewrite app_nil_r.
    f_equal. by apply IH.
Qed.

(** [split] is the inverse of [join]: its result is the one non-empty
    list of separator-free pieces that joins back to the string. *)
Lemma split_spec (s : str) (l : list str) :
  PyStr.split sep s = l
  <-> l <> [] /\ Forall (fun x => ~ In sep x) l /\ PyStr.join [sep] l = s.
Proof.
  split.
  - intros <-. auto using split_not_nil, split_no_sep, join_split.
  - intros (Hn & Hall & <-). by apply split_join.
Qed.

Lemma split_app (a b : str) :
  PyStr.split sep (a ++ b)
  = removelast (PyStr.split sep a)
    ++ (List.last (PyStr.split sep a) [] ++ hd [] (PyStr.split sep b))
       :: tl (PyStr.split sep b).
Proof.
  induction a as [|c a IH].
  - simpl. pose proof (split_not_nil b). by destruct (PyStr.split sep b).
  - pose proof (split_not_nil a) as Hn.
    rewrite <- app_comm_cons.
    destruct (N.eq_dec c sep) as [->|Hc].
    + rewrite !split_cons_sep, IH.
      destruct (PyStr.split sep a) as [|h t]; [done|]. done.
    + rewrite !split_cons_other by done. rewrite IH.
      destruct (PyStr.split sep a) as [|h t]; [done|].
      destruct t as [|h2 t]; done.
Qed.

Lemma split_app_sep (a b : str) :
  PyStr.split sep (a ++ sep :: b) = PyStr.split sep a ++ PyStr.split sep b.
Proof.
  rewrite split_app, split_cons_sep. simpl hd. simpl tl. rewrite app_nil_r.
  pose proof (split_not_nil a) as Hn.
  rewrite (app_removelast_last [] Hn) at 3. by rewrite <- app_assoc.
Qed.

(** The last piece is empty exactly when the string is empty or ends
    with the separator. *)
Lemma split_last_nil (s : str) :
  List.last (PyStr.split sep s) [] = [] <-> s = [] \/ exists p, s = p ++ [sep].
Proof.
  induction s as [|c s IH].
  - simpl. tauto.
  - pose proof (split_not_nil s) as Hn.
    destruct (N.eq_dec c sep) as [->|Hc].
    + rewrite split_cons_sep.
      destruct (PyStr.split sep s) as [|h t] eqn:E; [done|].
      change (List.last ([] :: h :: t) []) with (List.last (h :: t) ([] : str)).
      rewrite IH. split.
      * intros [->|[p ->]]; right; [by exists []|by exists (sep :: p)].
      * intros [?|[p Hp]]; [done|]. destruct p as [|x p].
        -- left. simpl in Hp. congruence.
        -- right. exists p. simpl in Hp. congruence.
    + rewrite split_cons_other by done.
      destruct (PyStr.split sep s) as [|h t] eqn:E; [done|]. simpl hd. simpl tl.
      destruct t as [|h2 t].
      * simpl. split; [done|]. intros [?|[p Hp]]; [done|].
        destruct p as [|x p]; simpl in Hp; [congruence|].
        assert (List.last [h] [] = []) as Hl.
        { apply IH. right. exists p. congruence. }
        simpl in Hl. subst h.
        (* s ends with sep but has a single piece: impossible *)
        assert (In sep s) as Hin.
        { injection Hp as _ ->. apply in_or_app. right. by left. }
        pose proof (split_no_sep s) as Hns. rewrite E in Hns.
        pose proof (join_split s) as Hj. rewrite E in Hj. simpl in Hj. subst s.
        done.
      * change (List.last ((c :: h) :: h2 :: t) []) with (List.last (h2 :: t) ([] : str)).
        change (List.last (h2 :: t) ([] : str)) with (List.last (h :: h2 :: t) ([] : str)).
        rewrite IH. split.
        -- intros [->|[p ->]]; [done|]. right. by exists (c :: p).
        -- intros [?|[p Hp]]; [done|]. destruct p as [|x p]; simpl in Hp.
           ++ injection Hp as -> ->. done.
           ++ right. exists p. congruence.
Qed.

End Split.

(** * The PATH diff *)

Lemma last_in {A} (l : list A) (d : A) : l <> [] -> In (List.last l d) l.
Proof.
  induction l as [|x l IH]; [done|]. intros _.
  destruct l as [|y l]; [by left|]. right. by apply IH.
Qed.

(** C1. The diff region is the hook PATH without the ambient PATH when the
    hook PATH ends with it, and the whole hook PATH otherwise; the region
    is cut at the separators into the one list of separator-free pieces
    that joins back to it, the empty pieces are dropped and the others
    keep their order; [path_diff] joins them again.  The two cases of the
    specification evaluate as it says. *)
Theorem path_diff_algorithm (hook ambient : str) :
  (forall p, hook = p ++ ambient -> new_path hook ambient = p)
  /\ ((forall p, hook <> p ++ ambient) -> new_path hook ambient = hook)
  /\ (exists pieces : list str,
         pieces <> []
         /\ Forall (fun x => ~ In pathsep_char x) pieces
         /\ PyStr.join pathsep pieces = new_path hook ambient
         /\ path_segments hook ambient = List.filter PyStr.truthy pieces)
  /\ path_diff hook ambient = PyStr.join pathsep (path_segments hook ambient)
  /\ path_segments (py "X:Y:A:B") (py "A:B") = [py "X"; py "Y"]
  /\ path_segments (py "Z:Q") (py "A:B") = [py "Z"; py "Q"].
Proof.
  split; [|split; [|split; [|split; [|split]]]].
  - intros p ->. apply new_path_suffix.
  - apply new_path_no_suffix.
  - exists (PyStr.split pathsep_char (new_path hook ambient)).
    pose proof (proj1 (split_spec pathsep_char (new_path hook ambient) _) eq_refl)
      as (Hn & Hall & Hj).
    auto.
  - reflexivity.
  - reflexivity.
  - reflexivity.
Qed.

(** The two regions of the specification's examples. *)
Lemma path_diff_algorithm_witness :
  new_path (py "X:Y:A:B") (py "A:B") = py "X:Y:"
  /\ new_path (py "Z:Q") (py "A:B") = py "Z:Q".
Proof.
  split.
  - apply (proj1 (path_diff_algorithm (py "X:Y:A:B") (py "A:B"))). vm_compute. reflexivity.
  - apply (proj1 (proj2 (path_diff_algorithm (py "Z:Q") (py "A:B")))).
    intros p Hp.
    assert (PyStr.endswith (py "Z:Q") (py "A:B") = true) as H
      by (apply endswith_spec; eauto).
    vm_compute in H. discriminate H.
Defined.

(** C10. The suffix test is on raw strings.  When the hook PATH is
    [s ++ ambient] with [s] non-empty and not ending in the separator, the
    region removed is exactly [ambient]; the last segment of the delta is
    then the text of [s] after its last separator, while the segment of
    the hook PATH it was cut from continues with the first piece of
    [ambient].  Hook PATH ["fooA:B"] with ambient PATH ["A:B"] gives the
    delta [["foo"]]. *)
Theorem suffix_match_not_segment_aligned (s ambient : str) :
  s <> [] ->
  (forall p, s <> p ++ pathsep) ->
  let hook := s ++ ambient in
  let cut := List.last (PyStr.split pathsep_char s) [] in
  new_path hook ambient = s
  /\ path_segments hook ambient = List.filter PyStr.truthy (PyStr.split pathsep_char s)
  /\ cut <> []
  /\ In cut (path_segments hook ambient)
  /\ PyStr.split pathsep_char hook
     = removelast (PyStr.split pathsep_char s)
       ++ (cut ++ hd [] (PyStr.split pathsep_char ambient))
          :: tl (PyStr.split pathsep_char ambient)
  /\ path_segments (py "fooA:B") (py "A:B") = [py "foo"].
Proof.
  intros Hs Hend hook cut.
  assert (new_path hook ambient = s) as Hnew by apply new_path_suffix.
  assert (cut <> []) as Hcut.
  { intros H. apply split_last_nil in H as [?|[p Hp]]; [done|]. by apply (Hend p). }
  split; [done|]. split; [unfold path_segments; by rewrite Hnew|].
  split; [done|]. split; [|split].
  - unfold path_segments. rewrite Hnew. apply filter_In. split.
    + apply last_in, split_not_nil.
    + by destruct cut.
  - apply split_app.
  - reflexivity.
Qed.

(** The cut segment of the example: [foo] out of [fooA]. *)
Lemma suffix_match_not_segment_aligned_witness :
  new_path (py "fooA:B") (py "A:B") = py "foo"
  /\ In (py "foo") (path_segments (py "fooA:B") (py "A:B"))
  /\ PyStr.split pathsep_char (py "fooA:B") = [py "fooA"; py "B"].
Proof.
  assert (py "foo" <> []) as H1 by discriminate.
  assert (forall p, py "foo" <> p ++ pathsep) as H2.
  { intros p Hp.
    assert (PyStr.endswith (py "foo") pathsep = true) as H
      by (apply endswith_spec; eauto).
    vm_compute in H. discriminate H. }
  pose proof (suffix_match_not_segment_aligned (py "foo") (py "A:B") H1 H2)
    as (Ha & _ & _ & Hb & Hc & _).
  split; [exact Ha|]. split; [exact Hb|exact Hc].
Defined.

(** * Variable filtering *)

Lemma yaml_eq_str_spec (key : str) (item : yaml) :
  yaml_eq_str key item = true <-> item = YStr key.
Proof.
  destruct item; simpl; try (split; [discriminate|discriminate]).
  rewrite eqb_eq. split; congruence.
Qed.

Lemma should_exclude_spec (key : str) (extra : option (list yaml)) :
  _should_exclude key extra = true
  <-> key = py "PATH"
      \/ (exists rest, key = py "PIXI_" ++ rest)
      \/ (exists l, extra = Some l /\ In (YStr key) l).
Proof.
  unfold _should_exclude, _EXCLUDE_EXACT, _EXCLUDE_PREFIXES.
  cbn [existsb]. rewrite !orb_false_r.
  destruct (PyStr.eqb key (py "PATH")) eqn:E1.
  { apply eqb_eq in E1. tauto. }
  apply eqb_neq in E1.
  destruct (PyStr.startswith key (py "PIXI_")) eqn:E2.
  { apply startswith_spec in E2. tauto. }
  assert (~ exists rest, key = py "PIXI_" ++ rest) as E2'.
  { intros H. apply startswith_spec in H. congruence. }
  destruct extra as [l|].
  - rewrite existsb_exists. split.
    + intros (x & Hin & Hx). apply yaml_eq_str_spec in Hx. subst x.
      right. right. eauto.
    + intros [?|[?|(l' & [= <-] & Hin)]]; [done|done|].
      exists (YStr key). split; [done|]. by apply yaml_eq_str_spec.
  - split; [discriminate|]. intros [?|[?|(l' & ? & _)]]; done.
Qed.

(** C2. A name is suppressed exactly when it is [PATH], starts with
    [PIXI_], or is in the exclusion list that was supplied; the published
    environment holds the other pairs of the captured one, and the
    environment of the specification with exclusion [HOME] is filtered to
    [FOO=1] alone. *)
Theorem variable_filtering (env_vars : dict) (exclude : option (list yaml)) :
  (forall k, _should_exclude k exclude = true
             <-> k = py "PATH"
                 \/ (exists rest, k = py "PIXI_" ++ rest)
                 \/ (exists l, exclude = Some l /\ In (YStr k) l))
  /\ (forall k v, In (k, v) (filtered_env env_vars exclude)
                  <-> In (k, v) env_vars /\ _should_exclude k exclude = false)
  /\ filtered_env
       [(py "PATH", py "..."); (py "PIXI_FOO", py "x");
        (py "HOME", py "/h"); (py "FOO", py "1")]
       (Some [YStr (py "HOME")])
     = [(py "FOO", py "1")].
Proof.
  split; [|split].
  - intros k. apply should_exclude_spec.
  - intros k v. unfold filtered_env. rewrite filter_In. simpl.
    by rewrite negb_true_iff.
  - reflexivity.
Qed.

(** * Entry validation *)

Lemma truthy_false (s : str) : PyStr.truthy s = false <-> s = [].
Proof. destruct s; simpl; split; congruence. Qed.

Lemma truthy_true (s : str) : PyStr.truthy s = true <-> s <> [].
Proof. destruct s; simpl; split; congruence. Qed.

(** C4, as the code has it.  [parse_input] raises a [ValueError] naming
    the input when [git] is absent or empty, when [apps] is absent or
    empty as a string, and when [apps] does not load to a YAML list; an
    error of the YAML loader is passed on.  Otherwise it returns the entry
    with the supplied fields: [ref] and [environment] when non-empty, and
    the exclusion list only when it loads to a list.  An exclusion that
    loads to anything else is dropped without an error, and an empty YAML
    list of executables is accepted. *)
Theorem parse_input_validation (safe_load : str -> result yaml) (environ : gmap str str) :
  let git_url := environ_get environ (py "INPUT_GIT") in
  let apps_raw := environ_get environ (py "INPUT_APPS") in
  let exclude_raw := environ_get environ (py "INPUT_EXCLUDE_ENV_VARS") in
  let accepted apps exclude :=
    Ok {| git := git_url; apps := apps;
          ref := optional_input environ (py "INPUT_REF");
          environment := optional_input environ (py "INPUT_ENVIRONMENT");
          exclude_env_vars := exclude |} in
  (git_url = [] ->
   parse_input safe_load environ = Raise (ValueError (py "'git' input is required")))
  /\ (git_url <> [] -> apps_raw = [] ->
      parse_input safe_load environ = Raise (ValueError (py "'apps' input is required")))
  /\ (git_url <> [] -> apps_raw <> [] ->
      forall v, safe_load apps_raw = Ok v -> (forall l, v <> YSeq l) ->
      parse_input safe_load environ
      = Raise (ValueError (py "'apps' input must be a YAML list")))
  /\ (git_url <> [] -> apps_raw <> [] ->
      forall e, safe_load apps_raw = Raise e ->
      parse_input safe_load environ = Raise e)
  /\ (git_url <> [] -> apps_raw <> [] ->
      forall l, safe_load apps_raw = Ok (YSeq l) ->
      (exclude_raw = [] -> parse_input safe_load environ = accepted l None)
      /\ (exclude_raw <> [] ->
          forall x, safe_load exclude_raw = Ok (YSeq x) ->
          parse_input safe_load environ = accepted l (Some x))
      /\ (exclude_raw <> [] ->
          forall w, safe_load exclude_raw = Ok w -> (forall x, w <> YSeq x) ->
          parse_input safe_load environ = accepted l None)
      /\ (exclude_raw <> [] ->
          forall e, safe_load exclude_raw = Raise e ->
          parse_input safe_load environ = Raise e)).
Proof.
  intros git_url apps_raw exclude_raw accepted. unfold parse_input.
  fold git_url apps_raw exclude_raw.
  split; [|split; [|split; [|split]]].
  - intros ->. done.
  - intros Hg%truthy_true ->. by rewrite Hg.
  - intros Hg%truthy_true Ha%truthy_true v Hv Hl. rewrite Hg, Ha, Hv. simpl.
    destruct v; try done. by destruct (Hl items).
  - intros Hg%truthy_true Ha%truthy_true e He. by rewrite Hg, Ha, He.
  - intros Hg%truthy_true Ha%truthy_true l Hl. rewrite Hg, Ha, Hl. simpl.
    split; [|split; [|split]].
    + intros ->. done.
    + intros Hx%truthy_true x Hload. by rewrite Hx, Hload.
    + intros Hx%truthy_true w Hload Hw. rewrite Hx, Hload.
      destruct w; try done. by destruct (Hw items).
    + intros Hx%truthy_true e He. by rewrite Hx, He.
Qed.

(** Well-formed inputs with every optional field set. *)
Lemma parse_input_validation_witness :
  parse_input sample_safe_load inputs_full
  = Ok {| git := py "https://example.org/tool.git";
          apps := [YStr (py "foo")];
          ref := Some (py "v1");
          environment := Some (py "dev");
          exclude_env_vars := Some [YStr (py "HOME")] |}.
Proof.
  pose proof (parse_input_validation sample_safe_load inputs_full)
    as (_ & _ & _ & _ & H).
  assert (environ_get inputs_full (py "INPUT_GIT") <> []) as Hg
    by (vm_compute; discriminate).
  assert (environ_get inputs_full (py "INPUT_APPS") <> []) as Ha
    by (vm_compute; discriminate).
  assert (environ_get inputs_full (py "INPUT_EXCLUDE_ENV_VARS") <> []) as Hx
    by (vm_compute; discriminate).
  destruct (H Hg Ha [YStr (py "foo")] eq_refl) as (_ & H2 & _).
  rewrite (H2 Hx [YStr (py "HOME")] eq_refl). vm_compute. reflexivity.
Defined.

(** C4 as stated fails: an exclusion input that is a YAML scalar raises
    nothing, it is dropped; and the empty YAML list of executables is
    accepted. *)
Lemma parse_input_accepts_malformed :
  sample_safe_load (py "HOME") = Ok (YStr (py "HOME"))
  /\ parse_input sample_safe_load inputs_scalar_exclusion
     = Ok {| git := py "https://example.org/tool.git";
             apps := [YStr (py "foo")];
             ref := None; environment := None; exclude_env_vars := None |}
  /\ sample_safe_load (py "[]") = Ok (YSeq [])
  /\ parse_input sample_safe_load inputs_empty_apps
     = Ok {| git := py "https://example.org/tool.git";
             apps := [];
             ref := None; environment := None; exclude_env_vars := None |}.
Proof. repeat split; vm_compute; reflexivity. Qed.

(** * The delta engine's failure *)

Lemma dict_get_None (d : dict) (key : str) :
  ~ In key (List.map fst d) -> dict_get d key = None.
Proof.
  induction d as [|[k v] d IH]; [done|]. simpl. intros H.
  destruct (PyStr.eqb k key) eqn:E.
  - apply eqb_eq in E. destruct H. by left.
  - apply IH. intros Hin. apply H. by right.
Qed.

Lemma dict_get_Some (d : dict) (key v : str) :
  dict_get d key = Some v -> In (key, v) d.
Proof.
  induction d as [|[k x] d IH]; [done|]. simpl.
  destruct (PyStr.eqb k key) eqn:E.
  - apply eqb_eq in E. intros [= ->]. left. congruence.
  - intros H. right. by apply IH.
Qed.

Section Expose.

Variable environ : gmap str str.
Variable home : str.

(** A prefix that is absent or empty stops [expose_entry] at the check,
    before the loop. *)
Lemma expose_entry_falsy_prefix (env_vars : dict) (e : entry) (f : fs) :
  dict_get env_vars (py "CONDA_PREFIX") = None
  \/ dict_get env_vars (py "CONDA_PREFIX") = Some [] ->
  expose_entry environ home env_vars e f
  = (Raise (RuntimeError (missing_prefix_message (environment_name e))), f).
Proof. unfold expose_entry. by intros [-> | ->]. Qed.

Lemma expose_entry_truthy_prefix (env_vars : dict) (e : entry) (prefix : str) :
  dict_get env_vars (py "CONDA_PREFIX") = Some prefix ->
  prefix <> [] ->
  expose_entry environ home env_vars e
  = for_each
      (publish_app environ home prefix
         (path_diff (default [] (dict_get env_vars (py "PATH")))
                    (environ_get environ (py "PATH")))
         (filtered_env env_vars (exclude_env_vars e)))
      (apps e).
Proof. unfold expose_entry. intros -> H. by destruct prefix. Qed.

(** C3. When the captured environment has no [CONDA_PREFIX], the engine
    raises a [RuntimeError] whose message carries the name of the
    environment being activated ([default] when the entry names none), and
    the file system is left as it was: no configuration and no link is
    written. *)
Theorem missing_active_prefix (env_vars : dict) (e : entry) (f : fs) :
  ~ In (py "CONDA_PREFIX") (List.map fst env_vars) ->
  expose_entry environ home env_vars e f
  = (Raise (RuntimeError
       (py "CONDA_PREFIX not found in shell-hook output for environment '"
        ++ environment_name e ++ py "'")), f)
  /\ environment_name e
     = match environment e with Some name => name | None => py "default" end.
Proof.
  intros H. split; [|unfold environment_name; by destruct (environment e)].
  apply expose_entry_falsy_prefix. left. by apply dict_get_None.
Qed.

(** C9. An empty [CONDA_PREFIX] is treated as a missing one: the same
    error, naming the environment, and no write. *)
Theorem empty_active_prefix (env_vars : dict) (e : entry) (f : fs) :
  dict_get env_vars (py "CONDA_PREFIX") = Some [] ->
  expose_entry environ home env_vars e f
  = (Raise (RuntimeError
       (py "CONDA_PREFIX not found in shell-hook output for environment '"
        ++ environment_name e ++ py "'")), f)
  /\ forall env_absent : dict,
       ~ In (py "CONDA_PREFIX") (List.map fst env_absent) ->
       expose_entry environ home env_vars e f
       = expose_entry environ home env_absent e f.
Proof.
  intros H. split.
  - apply expose_entry_falsy_prefix. by right.
  - intros env_absent Habs.
    rewrite !expose_entry_falsy_prefix; auto using dict_get_None.
Qed.

End Expose.

(** * What the publisher writes *)

Lemma io_bind_inv {A B} (m : io A) (k : A -> io B) (f f' : fs) (r : result B) :
  io_bind m k f = (r, f') ->
  (exists a f1, m f = (Ok a, f1) /\ k a f1 = (r, f'))
  \/ (exists e, m f = (Raise e, f') /\ r = Raise e).
Proof.
  unfold io_bind. destruct (m f) as [[a|e] f1]; intros H.
  - left. eauto.
  - right. exists e. by injection H as <- <-.
Qed.

Lemma write_text_inv (p : PosixPath.t) (t : str) (f f' : fs) (r : result unit) :
  write_text p t f = (r, f') ->
  (f' = f /\ exists e, r = Raise e)
  \/ (r = Ok tt
      /\ (PosixPath.to_str p ∉ dirs f)
      /\ (PosixPath.to_str (PosixPath.parent p) ∈ dirs f)
      /\ exists i, dirs f' = dirs f
           /\ names f' = <[PosixPath.to_str p := i]> (names f)
           /\ data f' = <[i := t]> (data f)
           /\ (names f !! PosixPath.to_str p = Some i
               \/ names f !! PosixPath.to_str p = None /\ i = fresh_inode f)).
Proof.
  unfold write_text. repeat case_decide.
  - intros [= <- <-]. left. eauto.
  - destruct (names f !! PosixPath.to_str p) as [i|] eqn:E; intros [= <- <-];
      right; (split; [done|]); (split; [done|]); (split; [done|]).
    + exists i. simpl. split; [done|]. split; [by rewrite insert_id|]. split; [done|]. by left.
    + exists (fresh_inode f). simpl. split; [done|]. split; [done|]. split; [done|]. right. done.
  - intros [= <- <-]. left. eauto.
Qed.

Lemma unlink_inv (p : PosixPath.t) (f f' : fs) (r : result unit) :
  unlink p f = (r, f') ->
  (f' = f /\ exists e, r = Raise e)
  \/ (r = Ok tt
      /\ (PosixPath.to_str p ∉ dirs f)
      /\ dirs f' = dirs f
      /\ names f' = delete (PosixPath.to_str p) (names f)
      /\ data f' = data f).
Proof.
  unfold unlink. case_decide; intros [= <- <-]; [left; eauto|right; auto].
Qed.

Lemma link_inv (src dst : PosixPath.t) (f f' : fs) (r : result unit) :
  link src dst f = (r, f') ->
  (f' = f /\ exists e, r = Raise e)
  \/ (r = Ok tt
      /\ (PosixPath.to_str dst ∉ dirs f)
      /\ (PosixPath.to_str (PosixPath.parent dst) ∈ dirs f)
      /\ names f !! PosixPath.to_str dst = None
      /\ exists i, names f !! PosixPath.to_str src = Some i
           /\ dirs f' = dirs f
           /\ names f' = <[PosixPath.to_str dst := i]> (names f)
           /\ data f' = data f).
Proof.
  unfold link.
  destruct (names f !! PosixPath.to_str src) as [i|] eqn:Es.
  - case_decide; [intros [= <- <-]; left; eauto|].
    destruct (names f !! PosixPath.to_str dst) eqn:Ed; [intros [= <- <-]; left; eauto|].
    case_decide; intros [= <- <-]; [|left; eauto].
    right. repeat (split; [done|]). exists i. auto.
  - case_decide; intros [= <- <-]; left; eauto.
Qed.

Section Writes.

Variable environ : gmap str str.
Variable home : str.

(** One pass of the loop changes the contents of at most the inode of
    the configuration file, to the record of that name. *)
Lemma publish_app_data (prefix pdiff : str) (fenv : dict) (app : yaml)
      (f f' : fs) (r : result unit) :
  publish_app environ home prefix pdiff fenv app f = (r, f') ->
  forall i, data f' !! i = data f !! i
            \/ exists name, app = YStr name
                 /\ data f' !! i = Some (config_text prefix pdiff fenv name).
Proof.
  destruct app as [| | |name| |]; simpl; try (intros [= <- <-]; by left).
  intros H i.
  apply io_bind_inv in H as [(a & f1 & Hw & H)|(e & Hw & ->)].
  - assert (data f' = data f1) as Hd.
    { apply io_bind_inv in H as [(a2 & f2 & Hu & H)|(e & Hu & ->)].
      - apply unlink_inv in Hu as [[-> _]|(_ & _ & _ & _ & Hd2)];
          apply link_inv in H as [[-> _]|(_ & _ & _ & _ & j & _ & _ & _ & Hd3)];
          congruence.
      - by apply unlink_inv in Hu as [[-> _]|(? & _)]. }
    rewrite Hd.
    apply write_text_inv in Hw as [[-> _]|(_ & _ & _ & j & _ & _ & -> & _)]; [by left|].
    destruct (decide (j = i)) as [->|Hne].
    + right. exists name. by rewrite lookup_insert_eq.
    + left. by rewrite lookup_insert_ne.
  - apply write_text_inv in Hw as [[-> _]|(? & _)]; [by left|done].
Qed.

Lemma for_each_publish_data (prefix pdiff : str) (fenv : dict) (l : list yaml)
      (f f' : fs) (r : result unit) :
  for_each (publish_app environ home prefix pdiff fenv) l f = (r, f') ->
  forall i, data f' !! i = data f !! i
            \/ exists name, In (YStr name) l
                 /\ data f' !! i = Some (config_text prefix pdiff fenv name).
Proof.
  revert f. induction l as [|app l IH]; intros f; simpl.
  - intros [= <- <-] i. by left.
  - intros H i.
    apply io_bind_inv in H as [(a & f1 & Hp & H)|(e & Hp & ->)].
    + destruct (IH _ H i) as [Hi|(name & Hin & Hi)].
      * rewrite Hi.
        destruct (publish_app_data _ _ _ _ _ _ _ Hp i) as [?|(name & -> & ?)];
          [by left|]. right. exists name. split; [by left|done].
      * right. exists name. split; [by right|done].
    + destruct (publish_app_data _ _ _ _ _ _ _ Hp i) as [?|(name & -> & ?)];
        [by left|]. right. exists name. split; [by left|done].
Qed.

(** Every inode whose contents a run of [expose_entry] changed holds the
    record of one of the entry's executables. *)
Lemma expose_entry_writes (env_vars : dict) (e : entry) (f f' : fs) (r : result unit) :
  expose_entry environ home env_vars e f = (r, f') ->
  forall i, data f' !! i <> data f !! i ->
  exists prefix name,
    dict_get env_vars (py "CONDA_PREFIX") = Some prefix
    /\ prefix <> []
    /\ In (YStr name) (apps e)
    /\ data f' !! i
       = Some (config_text prefix
                 (path_diff (default [] (dict_get env_vars (py "PATH")))
                            (environ_get environ (py "PATH")))
                 (filtered_env env_vars (exclude_env_vars e)) name).
Proof.
  intros H i Hi.
  destruct (dict_get env_vars (py "CONDA_PREFIX")) as [prefix|] eqn:E.
  2:{ rewrite expose_entry_falsy_prefix in H by auto. by injection H as <- <-. }
  destruct (decide (prefix = [])) as [->|Hp].
  { rewrite expose_entry_falsy_prefix in H by auto. by injection H as <- <-. }
  rewrite (expose_entry_truthy_prefix _ _ _ _ _ E Hp) in H.
  destruct (for_each_publish_data _ _ _ _ _ _ _ H i) as [?|(name & Hin & Ht)]; [done|].
  exists prefix, name. auto.
Qed.

(** C6. Every record a run of [expose_entry] writes has an environment
    made of pairs of the captured one whose name is not [PATH], does not
    start with [PIXI_] and is not in the exclusion list supplied. *)
Theorem published_environment_invariant
        (env_vars : dict) (e : entry) (f f' : fs) (r : result unit) :
  expose_entry environ home env_vars e f = (r, f') ->
  forall i, data f' !! i <> data f !! i ->
  exists cfg : Config.t,
    data f' !! i = Some (Json.dumps (Config.to_json cfg))
    /\ forall k v, In (k, v) (Config.env cfg) ->
         In (k, v) env_vars
         /\ k <> py "PATH"
         /\ (forall rest, k <> py "PIXI_" ++ rest)
         /\ (forall l, exclude_env_vars e = Some l -> ~ In (YStr k) l).
Proof.
  intros H i Hi.
  destruct (expose_entry_writes _ _ _ _ _ H i Hi) as (prefix & name & _ & _ & _ & Ht).
  eexists. split; [exact Ht|]. simpl. intros k v Hin.
  unfold filtered_env in Hin. apply filter_In in Hin as [Hin Hex]. simpl in Hex.
  apply negb_true_iff in Hex. split; [done|].
  pose proof (should_exclude_spec k (exclude_env_vars e)) as Hs.
  split; [|split].
  - intros ->. assert (_should_exclude (py "PATH") (exclude_env_vars e) = true)
      by (apply should_exclude_spec; auto). congruence.
  - intros rest ->. destruct Hs as [_ Hs]. rewrite Hs in Hex; [done|]. right. left. eauto.
  - intros l Hl Hk. destruct Hs as [_ Hs]. rewrite Hs in Hex; [done|]. right. right. eauto.
Qed.

End Writes.

(** * Paths *)

Lemma join_app (sep : str) (l1 l2 : list str) :
  l1 <> [] -> l2 <> [] ->
  PyStr.join sep (l1 ++ l2) = PyStr.join sep l1 ++ sep ++ PyStr.join sep l2.
Proof.
  intros H1 H2. induction l1 as [|x l1 IH]; [done|].
  destruct l1 as [|y l1].
  - simpl. by destruct l2.
  - change (PyStr.join sep ((x :: y :: l1) ++ l2))
      with (x ++ sep ++ PyStr.join sep ((y :: l1) ++ l2)).
    rewrite IH by done.
    change (PyStr.join sep (x :: y :: l1)) with (x ++ sep ++ PyStr.join sep (y :: l1)).
    by rewrite <- !app_assoc.
Qed.

Lemma plain_name_spec (x : str) :
  plain_name x = true
  <-> x <> [] /\ x <> py "." /\ ~ In PosixPath.sep_char x.
Proof.
  unfold plain_name, PosixPath.keep.
  rewrite !andb_true_iff, !negb_true_iff, truthy_true, eqb_neq.
  split.
  - intros [[? ?] Hex]. repeat split; try done.
    intros Hin. assert (existsb (N.eqb PosixPath.sep_char) x = true); [|congruence].
    apply existsb_exists. exists PosixPath.sep_char. split; [done|apply N.eqb_refl].
  - intros (? & ? & Hn). repeat split; try done.
    destruct (existsb _ x) eqn:E; [|done].
    apply existsb_exists in E as (c & Hin & Hc). apply N.eqb_eq in Hc. by subst c.
Qed.

Lemma Path_plain (x : str) :
  plain_name x = true -> PosixPath.Path x = PosixPath.mk [] [x].
Proof.
  intros Hp. pose proof Hp as (Hne & Hdot & Hsep)%plain_name_spec.
  unfold PosixPath.Path, PosixPath.splitroot.
  destruct x as [|c x]; [done|].
  destruct (N.eqb_spec c PosixPath.sep_char) as [->|Hc].
  { destruct Hsep. by left. }
  rewrite split_no_sep_id by done. simpl.
  apply andb_true_iff in Hp as [Hk _]. by rewrite Hk.
Qed.

Lemma truediv_plain (p : PosixPath.t) (x : str) :
  plain_name x = true ->
  p /p x = PosixPath.mk (PosixPath.root p) (PosixPath.parts p ++ [x]).
Proof. intros H. unfold PosixPath.truediv. by rewrite Path_plain. Qed.

Lemma Path_parts_keep (s : str) :
  Forall (fun x => PosixPath.keep x = true) (PosixPath.parts (PosixPath.Path s)).
Proof.
  unfold PosixPath.Path. destruct (PosixPath.splitroot s) as [r rel]. simpl.
  apply List.Forall_forall. intros x Hx. by apply filter_In in Hx as [_ ?].
Qed.

Lemma join_not_nil (sep : str) (l : list str) :
  l <> [] -> Forall (fun x => PosixPath.keep x = true) l -> PyStr.join sep l <> [].
Proof.
  destruct l as [|x l]; [done|]. intros _ H. inversion H as [|? ? Hx _]; subst.
  destruct x as [|c x]; [done|]. by destruct l.
Qed.

(** With a normalised prefix and a plain name, [pathlib] joins by
    concatenation. *)
Lemma exe_path_plain (prefix name : str) :
  normal_path prefix = true ->
  plain_name name = true ->
  exe_path prefix name = prefix ++ py "/bin/" ++ name.
Proof.
  intros [Hn Hparts]%andb_true_iff Hname. apply eqb_eq in Hn.
  unfold exe_path.
  rewrite (truediv_plain _ (py "bin")) by reflexivity.
  rewrite truediv_plain by done. cbn [PosixPath.root PosixPath.parts].
  pose proof (Path_parts_keep prefix) as Hkeep.
  destruct (PosixPath.Path prefix) as [r ps]. cbn [PosixPath.root PosixPath.parts] in *.
  assert (ps <> []) as Hps by (by destruct ps).
  unfold PosixPath.to_str in *. cbn [PosixPath.root PosixPath.parts] in *.
  rewrite <- app_assoc. rewrite (join_app _ ps) by done.
  change (PyStr.join PosixPath.sep ([py "bin"] ++ [name])) with (py "bin" ++ PosixPath.sep ++ name).
  assert (PyStr.truthy (r ++ PyStr.join PosixPath.sep ps) = true) as Ht.
  { apply truthy_true. intros [_ H]%app_eq_nil. by apply (join_not_nil PosixPath.sep ps). }
  rewrite Ht in Hn. rewrite <- Hn.
  rewrite <- !app_assoc.
  rewrite (proj2 (truthy_true _)); [done|].
  intros [_ E]%app_eq_nil. apply app_eq_nil in E as [_ E]. discriminate E.
Qed.

Section Layout.

Variable environ : gmap str str.
Variable home : str.


End Layout.

(** * The JSON text *)

Module JsonFacts.
Import Json.
Local Open Scope N_scope.

Lemma hexval_hexdigit (d : N) : d < 16 -> hexval (hexdigit d) = Some d.
Proof.
  intros H. unfold hexdigit, hexval.
  destruct (N.ltb_spec d 10).
  - replace ((48 <=? 48 + d) && (48 + d <=? 57))%bool with true.
    + f_equal. lia.
    + symmetry. apply andb_true_iff. split; apply N.leb_le; lia.
  - replace ((48 <=? 87 + d) && (87 + d <=? 57))%bool with false.
    + replace ((97 <=? 87 + d) && (87 + d <=? 102))%bool with true.
      * f_equal. lia.
      * symmetry. apply andb_true_iff. split; apply N.leb_le; lia.
    + symmetry. apply andb_false_iff. right. apply N.leb_gt. lia.
Qed.

Lemma hex_digits_sum (n : N) :
  n < 65536 ->
  (n / 4096 mod 16) * 4096 + (n / 256 mod 16) * 256 + (n / 16 mod 16) * 16 + n mod 16 = n.
Proof.
  intros H.
  pose proof (N.div_mod n 16 ltac:(lia)).
  pose proof (N.div_mod (n / 16) 16 ltac:(lia)).
  pose proof (N.div_mod (n / 16 / 16) 16 ltac:(lia)).
  pose proof (N.mod_lt n 16 ltac:(lia)).
  pose proof (N.mod_lt (n / 16) 16 ltac:(lia)).
  pose proof (N.mod_lt (n / 16 / 16) 16 ltac:(lia)).
  replace (n / 256) with (n / 16 / 16) by (rewrite N.Div0.div_div; reflexivity).
  replace (n / 4096) with (n / 16 / 16 / 16) by (rewrite !N.Div0.div_div; reflexivity).
  assert (n / 16 / 16 / 16 < 16).
  { rewrite !N.Div0.div_div. apply N.Div0.div_lt_upper_bound. simpl. lia. }
  rewrite (N.mod_small (n / 16 / 16 / 16) 16) by done.
  lia.
Qed.

Lemma decode_escape_u (n : N) :
  n < 65536 ->
  exists a b c d, escape_u n = [92; 117; a; b; c; d] /\ decode_u a b c d = Some n.
Proof.
  intros H. unfold escape_u. do 4 eexists. split; [reflexivity|].
  unfold decode_u.
  rewrite !hexval_hexdigit by (apply N.mod_lt; lia).
  f_equal. by apply hex_digits_sum.
Qed.

Lemma lor_shiftl_add (hi lo k : N) :
  lo < 2 ^ k -> N.lor (N.shiftl hi k) lo = hi * 2 ^ k + lo.
Proof.
  intros H.
  assert (N.land (N.shiftl hi k) lo = 0) as Hd.
  { apply N.bits_inj_0. intros i. rewrite N.land_spec.
    destruct (N.lt_ge_cases i k) as [Hi|Hi].
    - by rewrite N.shiftl_spec_low.
    - rewrite <- (N.mod_small lo (2 ^ k)) by done.
      rewrite N.mod_pow2_bits_high by done. apply andb_false_r. }
  rewrite <- N.lxor_lor by done.
  rewrite <- N.add_nocarry_lxor by done.
  by rewrite N.shiftl_mul_pow2.
Qed.

(** The two halves of the surrogate pair of a code point above the basic
    plane, and the code point they combine to. *)
Lemma surrogate_pair (c : N) :
  65536 <= c -> c < 1114112 ->
  let n := c - 65536 in
  let s1 := N.lor 55296 (N.land (N.shiftr n 10) 1023) in
  let s2 := N.lor 56320 (N.land n 1023) in
  s1 < 65536 /\ s2 < 65536
  /\ is_high s1 = true /\ is_low s2 = true
  /\ 65536 + N.lor (N.shiftl (s1 - 55296) 10) (s2 - 56320) = c.
Proof.
  intros Hlo Hhi n s1 s2.
  assert (n < 1048576) as Hn by (unfold n; lia).
  assert (N.shiftr n 10 = n / 1024) as Hsr by (by rewrite N.shiftr_div_pow2).
  assert (n / 1024 < 1024) as Hq by (apply N.Div0.div_lt_upper_bound; lia).
  assert (N.land (N.shiftr n 10) 1023 = n / 1024) as H1.
  { change 1023 with (N.ones 10). rewrite N.land_ones, Hsr.
    apply N.mod_small. exact Hq. }
  assert (N.land n 1023 = n mod 1024) as H2.
  { change 1023 with (N.ones 10). by rewrite N.land_ones. }
  assert (n mod 1024 < 1024) as Hr by (apply N.mod_lt; lia).
  assert (s1 = 55296 + n / 1024) as E1.
  { unfold s1. rewrite H1. change 55296 with (N.shiftl 54 10).
    rewrite lor_shiftl_add by exact Hq. reflexivity. }
  assert (s2 = 56320 + n mod 1024) as E2.
  { unfold s2. rewrite H2. change 56320 with (N.shiftl 55 10).
    rewrite lor_shiftl_add by exact Hr. reflexivity. }
  rewrite E1, E2. unfold is_high, is_low.
  split; [lia|]. split; [lia|].
  split; [apply andb_true_iff; split; apply N.leb_le; lia|].
  split; [apply andb_true_iff; split; apply N.leb_le; lia|].
  replace (55296 + n / 1024 - 55296) with (n / 1024) by lia.
  replace (56320 + n mod 1024 - 56320) with (n mod 1024) by lia.
  rewrite lor_shiftl_add by exact Hr.
  pose proof (N.div_mod n 1024 ltac:(lia)). change (2 ^ 10) with 1024. unfold n in *. lia.
Qed.

(** *** One step of the string scanner *)

Lemma scan_quote (r acc : str) : scanstring (34 :: r) acc = Some (rev acc, r).
Proof. reflexivity. Qed.

Lemma scan_plain (c : N) (r acc : str) :
  c <> 34 -> c <> 92 -> 32 <= c ->
  scanstring (c :: r) acc = scanstring r (c :: acc).
Proof.
  intros H1 H2 H3. cbn [scanstring].
  apply N.eqb_neq in H1, H2. rewrite H1, H2.
  destruct (N.ltb_spec c 32); [lia|done].
Qed.

Lemma scan_simple_escape (esc ch : N) (r acc : str) :
  esc <> 117 -> backslash esc = Some ch ->
  scanstring (92 :: esc :: r) acc = scanstring r (ch :: acc).
Proof.
  intros H1 H2. cbn [scanstring]. change (92 =? 34) with false. change (92 =? 92) with true.
  cbv iota. apply N.eqb_neq in H1. rewrite H1. cbn [negb]. by rewrite H2.
Qed.

Lemma scan_u (a b c d uni : N) (r acc : str) :
  decode_u a b c d = Some uni ->
  (is_high uni = true -> no_low_escape r) ->
  scanstring (92 :: 117 :: a :: b :: c :: d :: r) acc = scanstring r (uni :: acc).
Proof.
  intros Hd Hr. cbn [scanstring].
  change (92 =? 34) with false. change (92 =? 92) with true.
  change (117 =? 117) with true. cbv iota. cbn [negb]. rewrite Hd.
  destruct r as [|bs [|u r3]]; [done|done|].
  destruct (is_high uni) eqn:Eh; [|done].
  destruct (N.eqb_spec bs 92) as [->|]; [|done].
  destruct (N.eqb_spec u 117) as [->|]; [|done].
  destruct (Hr eq_refl eq_refl eq_refl) as (a2 & b2 & c2 & d2 & r4 & uni2 & -> & Hd2 & Hl).
  cbn [andb]. by rewrite Hd2, Hl.
Qed.

Lemma scan_pair (a b c d a2 b2 c2 d2 hi lo : N) (r acc : str) :
  decode_u a b c d = Some hi -> is_high hi = true ->
  decode_u a2 b2 c2 d2 = Some lo -> is_low lo = true ->
  scanstring (92 :: 117 :: a :: b :: c :: d :: 92 :: 117 :: a2 :: b2 :: c2 :: d2 :: r) acc
  = scanstring r ((65536 + N.lor (N.shiftl (hi - 55296) 10) (lo - 56320)) :: acc).
Proof.
  intros Hd Hh Hd2 Hl. cbn [scanstring].
  change (92 =? 34) with false. change (92 =? 92) with true.
  change (117 =? 117) with true. cbv iota. cbn [negb]. rewrite Hd, Hh.
  cbn [andb]. by rewrite Hd2, Hl.
Qed.

Lemma escape_char_shape (c : N) : c < 1114112 -> escape_shape c (escape_char c).
Proof.
  intros Hc. unfold escape_char.
  destruct (N.eqb_spec c 92) as [->|H92]; [by apply (shape_simple 92 92)|].
  destruct (N.eqb_spec c 34) as [->|H34]; [by apply (shape_simple 34 34)|].
  destruct (N.eqb_spec c 8) as [->|H8]; [by apply (shape_simple 8 98)|].
  destruct (N.eqb_spec c 12) as [->|H12]; [by apply (shape_simple 12 102)|].
  destruct (N.eqb_spec c 10) as [->|H10]; [by apply (shape_simple 10 110)|].
  destruct (N.eqb_spec c 13) as [->|H13]; [by apply (shape_simple 13 114)|].
  destruct (N.eqb_spec c 9) as [->|H9]; [by apply (shape_simple 9 116)|].
  destruct (N.leb_spec 32 c); cbn [andb].
  - destruct (N.leb_spec c 126).
    + by apply shape_plain.
    + destruct (N.ltb_spec c 65536) as [Hlt|Hge].
      * destruct (decode_escape_u c Hlt) as (a & b & c' & d & -> & Hd).
        by apply shape_u.
      * pose proof (surrogate_pair c Hge Hc) as (H1 & H2 & Hh & Hl & Hcomb).
        cbv zeta in H1, H2, Hh, Hl, Hcomb.
        destruct (decode_escape_u _ H1) as (a & b & c' & d & -> & Hd).
        destruct (decode_escape_u _ H2) as (a2 & b2 & c2 & d2 & -> & Hd2).
        apply (shape_pair c a b c' d a2 b2 c2 d2 _ _ Hd Hh Hd2 Hl Hcomb).
        unfold is_high. apply andb_false_iff. right. apply N.leb_gt. lia.
  - destruct (N.ltb_spec c 65536) as [Hlt|Hge]; [|lia].
    destruct (decode_escape_u c Hlt) as (a & b & c' & d & -> & Hd).
    by apply shape_u.
Qed.

Lemma escape_head_ok (d : N) (more : str) :
  d < 1114112 -> is_low d = false -> no_low_escape (escape_char d ++ more).
Proof.
  intros Hd Hl. destruct (escape_char_shape d Hd); simpl.
  - intros _ ->. done.
  - destruct more; [done|]. intros ->. done.
  - intros _ _. do 4 eexists. exists more, d. done.
  - intros _ _. do 4 eexists. eexists. exists hi. split; [reflexivity|]. split; [done|].
    unfold is_high in *. unfold is_low.
    apply andb_true_iff in H0 as [_ H0%N.leb_le].
    apply andb_false_iff. left. apply N.leb_gt. lia.
Qed.

Lemma scan_char (c : N) (r acc : str) :
  c < 1114112 ->
  (is_high c = true -> no_low_escape r) ->
  scanstring (escape_char c ++ r) acc = scanstring r (c :: acc).
Proof.
  intros Hc Hr. destruct (escape_char_shape c Hc); simpl app.
  - by apply scan_simple_escape.
  - by apply scan_plain.
  - by apply scan_u.
  - subst c. by eapply scan_pair.
Qed.

Lemma json_text_cons (c : N) (s : str) :
  json_text (c :: s) = true ->
  c < 1114112
  /\ (is_high c = true -> match s with d :: _ => is_low d = false | [] => True end)
  /\ json_text s = true.
Proof.
  cbn [json_text]. intros [[H1 H2]%andb_true_iff H3]%andb_true_iff.
  apply N.ltb_lt in H1. apply negb_true_iff in H2.
  split; [done|]. split; [|done]. intros Hh. rewrite Hh in H2.
  destruct s; [done|]. done.
Qed.

(** The scanner undoes [encode_string]. *)
Lemma scan_escaped (s tail acc : str) :
  json_text s = true ->
  scanstring (List.flat_map escape_char s ++ 34 :: tail) acc
  = Some (rev acc ++ s, tail).
Proof.
  revert acc. induction s as [|c s IH]; intros acc Hs.
  - simpl app. rewrite scan_quote. by rewrite app_nil_r.
  - apply json_text_cons in Hs as (Hc & Hnext & Hs).
    cbn [List.flat_map]. rewrite <- app_assoc.
    rewrite scan_char; [|done|].
    + rewrite IH by done. cbn [rev]. by rewrite <- app_assoc.
    + intros Hh. specialize (Hnext Hh). destruct s as [|d s].
      * simpl. destruct tail; [done|]. intros [=].
      * apply json_text_cons in Hs as (Hd & _ & _).
        cbn [List.flat_map]. rewrite <- app_assoc. by apply escape_head_ok.
Qed.

Lemma scan_once_string (fuel : nat) (s rest : str) :
  json_text s = true ->
  scan_once (S fuel) (encode_string s ++ rest) = Some (JStr s, rest).
Proof.
  intros Hs. unfold encode_string. cbn [app scan_once].
  change (34 =? 34) with true. cbv iota.
  rewrite <- app_assoc. cbn [app]. by rewrite scan_escaped.
Qed.

End JsonFacts.

Module JsonObjects.
Import Json JsonFacts.

Lemma skip_ws_head (c : N) (r : str) : is_ws c = false -> skip_ws (c :: r) = c :: r.
Proof. intros H. simpl. by rewrite H. Qed.

Lemma skip_ws_indent (level : nat) (c : N) (r : str) :
  is_ws c = false -> skip_ws (newline_indent level ++ c :: r) = c :: r.
Proof.
  intros H. unfold newline_indent. cbn [app skip_ws]. change (is_ws 10) with true. cbv iota.
  induction (2 * level)%nat as [|n IH]; simpl.
  - by rewrite H.
  - exact IH.
Qed.

Lemma skip_ws_indent_all (level : nat) (x : str) :
  skip_ws (newline_indent level ++ x) = skip_ws x.
Proof.
  unfold newline_indent. cbn [app skip_ws]. change (is_ws 10) with true. cbv iota.
  induction (2 * level)%nat as [|n IHn]; [done|]. simpl. exact IHn.
Qed.

Lemma skip_ws_comma (x : str) : skip_ws (py "," ++ x) = 44%N :: x.
Proof. reflexivity. Qed.

Lemma dumps_at_head (level : nat) (v : value) :
  exists c r, dumps_at level v = c :: r /\ is_ws c = false.
Proof.
  destruct v as [|[]|s|[|x items]|[|kv members]]; simpl; eauto.
Qed.

Lemma member_text_head (level : nat) (kv : str * value) :
  exists r, member_text level kv = 34%N :: r.
Proof. unfold member_text, encode_string. simpl. eauto. Qed.

Lemma join_members_head (sep : str) (level : nat) (kvs : list (str * value)) (tail : str) :
  kvs <> [] ->
  exists r, PyStr.join sep (List.map (member_text level) kvs) ++ tail = 34%N :: r.
Proof.
  destruct kvs as [|kv kvs]; [done|]. intros _.
  destruct (member_text_head level kv) as [r Hr].
  destruct kvs as [|kv2 kvs]; cbn [List.map PyStr.join]; rewrite Hr; cbn [app]; eauto.
Qed.

(** One round of the member loop. *)
Lemma scan_member_step (fuel level : nat) (sc : str -> option (value * str))
      (k : str) (v : value) (after : str) (done : list (str * value)) :
  json_text k = true ->
  sc (dumps_at level v ++ after) = Some (v, after) ->
  scan_members (S fuel) sc (member_text level (k, v) ++ after) done
  = match skip_ws after with
    | c :: r4 =>
        if (c =? 125)%N then Some (rev ((k, v) :: done), r4)
        else if (c =? 44)%N then scan_members fuel sc (skip_ws r4) ((k, v) :: done)
        else None
    | [] => None
    end.
Proof.
  intros Hk Hv. unfold member_text, encode_string. cbn [fst snd].
  rewrite <- !app_assoc. cbn [app scan_members].
  change (34 =? 34)%N with true. cbn [negb]. cbv iota.
  rewrite scan_escaped by done. cbn [rev app].
  change (py ": ") with [58%N; 32%N]. cbn [app].
  rewrite (skip_ws_head 58) by done.
  change (58 =? 58)%N with true. cbn [negb]. cbv iota.
  destruct (dumps_at_head level v) as (c & r & Hd & Hc).
  assert (skip_ws (32%N :: dumps_at level v ++ after) = dumps_at level v ++ after) as ->.
  { cbn [skip_ws]. change (is_ws 32) with true. cbv iota.
    rewrite Hd. cbn [app]. by apply skip_ws_head. }
  by rewrite Hv.
Qed.

Lemma scan_members_ok (level : nat) (sc : str -> option (value * str))
      (kvs : list (str * value)) :
  Forall (fun kv => json_text (fst kv) = true
                    /\ forall rest, sc (dumps_at (S level) (snd kv) ++ rest)
                                    = Some (snd kv, rest)) kvs ->
  kvs <> [] ->
  forall (fuel : nat) (done : list (str * value)) (tail : str),
  (length kvs <= fuel)%nat ->
  scan_members fuel sc
    (PyStr.join (py "," ++ newline_indent (S level))
                (List.map (member_text (S level)) kvs)
     ++ newline_indent level ++ py "}" ++ tail) done
  = Some (rev done ++ kvs, tail).
Proof.
  induction 1 as [|[k v] kvs [Hk Hv] Hall IH]; [done|]. intros _ fuel done tail Hfuel.
  destruct fuel as [|fuel]; [simpl in Hfuel; lia|]. cbn [fst snd] in *.
  destruct kvs as [|kv2 kvs].
  - cbn [List.map PyStr.join].
    rewrite scan_member_step by auto.
    change (py "}") with [125%N]. cbn [app].
    rewrite skip_ws_indent by done. change (125 =? 125)%N with true. cbv iota.
    reflexivity.
  - change (PyStr.join (py "," ++ newline_indent (S level))
              (List.map (member_text (S level)) ((k, v) :: kv2 :: kvs)))
      with (member_text (S level) (k, v) ++ (py "," ++ newline_indent (S level))
            ++ PyStr.join (py "," ++ newline_indent (S level))
                 (List.map (member_text (S level)) (kv2 :: kvs))).
    destruct (join_members_head (py "," ++ newline_indent (S level)) (S level) (kv2 :: kvs)
                (newline_indent level ++ py "}" ++ tail) ltac:(done)) as [r Hr].
    specialize (IH ltac:(done) fuel ((k, v) :: done) tail ltac:(simpl in *; lia)).
    set (J := PyStr.join (py "," ++ newline_indent (S level))
                (List.map (member_text (S level)) (kv2 :: kvs))) in *.
    rewrite <- !app_assoc.
    set (T := J ++ newline_indent level ++ py "}" ++ tail) in *.
    rewrite scan_member_step by auto.
    rewrite skip_ws_comma.
    change (44 =? 125)%N with false. change (44 =? 44)%N with true. cbv iota.
    rewrite skip_ws_indent_all, Hr, skip_ws_head by done. rewrite <- Hr.
    rewrite IH. cbn [rev]. by rewrite <- app_assoc.
Qed.

Lemma scan_once_object (level fuel : nat) (kvs : list (str * value)) (rest : str) :
  (length kvs <= fuel)%nat ->
  Forall (fun kv => json_text (fst kv) = true
                    /\ forall rest, scan_once fuel (dumps_at (S level) (snd kv) ++ rest)
                                    = Some (snd kv, rest)) kvs ->
  scan_once (S fuel) (dumps_at level (JObj kvs) ++ rest) = Some (JObj kvs, rest).
Proof.
  intros Hfuel Hall. destruct kvs as [|kv kvs]; [reflexivity|].
  change (dumps_at level (JObj (kv :: kvs)))
    with (py "{" ++ newline_indent (S level)
          ++ PyStr.join (py "," ++ newline_indent (S level))
               (List.map (member_text (S level)) (kv :: kvs))
          ++ newline_indent level ++ py "}").
  change (py "{") with [123%N]. rewrite <- !app_assoc. cbn [app scan_once].
  change (123 =? 34)%N with false. change (123 =? 123)%N with true. cbv iota.
  destruct (join_members_head (py "," ++ newline_indent (S level)) (S level) (kv :: kvs)
              (newline_indent level ++ py "}" ++ rest) ltac:(done)) as [r Hr].
  rewrite Hr. rewrite skip_ws_indent by done.
  change (34 =? 125)%N with false. cbv iota. rewrite <- Hr.
  by rewrite (scan_members_ok level (scan_once fuel) (kv :: kvs) Hall ltac:(done) fuel [] rest Hfuel).
Qed.

End JsonObjects.

(** * Reading a configuration file back *)

Module ConfigFacts.
Import Json JsonFacts JsonObjects.

Lemma join_length (sep : str) (l : list str) :
  Forall (fun x => (1 <= length x)%nat) l ->
  (length l <= length (PyStr.join sep l))%nat.
Proof.
  induction 1 as [|x l Hx Hl IH]; [done|].
  destruct l as [|y l]; [simpl; lia|].
  change (PyStr.join sep (x :: y :: l)) with (x ++ sep ++ PyStr.join sep (y :: l)).
  rewrite !length_app. simpl in *. lia.
Qed.

Lemma member_text_length (level : nat) (kv : str * value) :
  (1 <= length (member_text level kv))%nat.
Proof. unfold member_text, encode_string. simpl. lia. Qed.

Lemma dumps_object_length (level : nat) (kvs : list (str * value)) :
  (length kvs + 2 <= length (dumps_at level (JObj kvs)))%nat.
Proof.
  destruct kvs as [|kv kvs]; [simpl; lia|].
  change (dumps_at level (JObj (kv :: kvs)))
    with (py "{" ++ newline_indent (S level)
          ++ PyStr.join (py "," ++ newline_indent (S level))
               (List.map (member_text (S level)) (kv :: kvs))
          ++ newline_indent level ++ py "}").
  rewrite !length_app.
  pose proof (join_length (py "," ++ newline_indent (S level))
                (List.map (member_text (S level)) (kv :: kvs))) as H.
  rewrite length_map in H.
  assert (Forall (fun x => (1 <= length x)%nat)
                 (List.map (member_text (S level)) (kv :: kvs))) as Hall.
  { apply List.Forall_forall. intros x (kv' & <- & _)%in_map_iff.
    apply member_text_length. }
  specialize (H Hall). change (length (py "{")) with 1%nat.
  change (length (py "}")) with 1%nat. lia.
Qed.

(** Members with fresh names are inserted at the end, one after the
    other. *)
Lemma dict_set_fresh {V} (d : list (str * V)) (k : str) (v : V) :
  ~ In k (List.map fst d) -> Config.dict_set d k v = d ++ [(k, v)].
Proof.
  induction d as [|[k' x] d IH]; [done|]. simpl. intros H.
  destruct (PyStr.eqb k' k) eqn:E.
  - apply eqb_eq in E. destruct H. by left.
  - rewrite IH; [done|]. intros Hin. apply H. by right.
Qed.

Lemma dict_of_pairs_app {V} (acc l : list (str * V)) :
  List.NoDup (List.map fst (acc ++ l)) ->
  fold_left (fun d kv => Config.dict_set d (fst kv) (snd kv)) l acc = acc ++ l.
Proof.
  revert acc. induction l as [|[k v] l IH]; intros acc Hnd; simpl.
  - by rewrite app_nil_r.
  - rewrite dict_set_fresh.
    + rewrite IH; rewrite <- app_assoc; done.
    + rewrite map_app in Hnd. simpl in Hnd.
      apply NoDup_remove_2 in Hnd. intros Hin. apply Hnd.
      apply in_or_app. by left.
Qed.

Lemma dict_of_pairs_nodup {V} (l : list (str * V)) :
  List.NoDup (List.map fst l) -> Config.dict_of_pairs l = l.
Proof. intros H. unfold Config.dict_of_pairs. by rewrite dict_of_pairs_app. Qed.

Lemma as_dict_strings (d : dict) :
  Config.as_dict (List.map (fun kv => (fst kv, JStr (snd kv))) d) = Some d.
Proof.
  induction d as [|[k v] d IH]; [done|]. simpl. by rewrite IH.
Qed.

Lemma json_dict_forall (d : dict) :
  json_dict d = true ->
  Forall (fun kv => json_text (fst kv) = true /\ json_text (snd kv) = true) d.
Proof.
  unfold json_dict. rewrite forallb_forall. intros H.
  apply List.Forall_forall. intros kv Hin. by apply andb_true_iff, H.
Qed.

(** The decoder reads back the value the encoder was given. *)
Lemma loads_config (c : Config.t) :
  json_text (Config.exe c) = true ->
  json_text (Config.path_diff c) = true ->
  json_dict (Config.env c) = true ->
  loads (dumps (Config.to_json c)) = Some (Config.to_json c).
Proof.
  intros He Hp Henv. unfold loads, dumps.
  set (text := dumps_at 0 (Config.to_json c)).
  set (envms := List.map (fun kv => (fst kv, JStr (snd kv))) (Config.env c)).
  assert (length envms + 2 <= length (dumps_at 1 (JObj envms)))%nat as Hlen
    by apply dumps_object_length.
  assert (length (dumps_at 1 (JObj envms)) + 2 <= length text)%nat as Hlen2.
  { unfold text, Config.to_json. fold envms.
    change (dumps_at 0 (JObj [(py "exe", JStr (Config.exe c));
                              (py "path_diff", JStr (Config.path_diff c));
                              (py "env", JObj envms)]))
      with (py "{" ++ newline_indent 1
            ++ (member_text 1 (py "exe", JStr (Config.exe c))
                ++ (py "," ++ newline_indent 1)
                ++ member_text 1 (py "path_diff", JStr (Config.path_diff c))
                ++ (py "," ++ newline_indent 1)
                ++ member_text 1 (py "env", JObj envms))
            ++ newline_indent 0 ++ py "}").
    unfold member_text at 3. cbn [fst snd]. rewrite !length_app.
    change (length (py "{")) with 1%nat. change (length (py "}")) with 1%nat. lia. }
  destruct (dumps_at_head 0 (Config.to_json c)) as (ch & r & Hd & Hws).
  assert (skip_ws text = text) as -> by (unfold text; rewrite Hd; by apply skip_ws_head).
  destruct (length text) as [|[|fuel]] eqn:El; [lia|lia|].
  rewrite <- (app_nil_r text). unfold text, Config.to_json. fold envms.
  rewrite scan_once_object; [done|simpl; lia|].
  repeat constructor; cbn [fst snd]; intros rest.
  - by apply scan_once_string.
  - by apply scan_once_string.
  - apply scan_once_object; [lia|].
    apply List.Forall_forall. intros kv (kv' & <- & Hin)%in_map_iff. cbn [fst snd].
    pose proof (json_dict_forall _ Henv) as Hall.
    rewrite List.Forall_forall in Hall. destruct (Hall kv' Hin) as [Hk Hv].
    split; [done|]. intros rest'.
    destruct fuel as [|fuel]; [lia|]. by apply scan_once_string.
Qed.

(** Reading back the text of a record gives the record. *)
Lemma of_text_dumps (c : Config.t) :
  json_text (Config.exe c) = true ->
  json_text (Config.path_diff c) = true ->
  json_dict (Config.env c) = true ->
  List.NoDup (List.map fst (Config.env c)) ->
  Config.of_text (dumps (Config.to_json c)) = Some c.
Proof.
  intros He Hp Henv Hnd. unfold Config.of_text.
  rewrite loads_config by done. unfold Config.to_json.
  change (Config.dict_of_pairs
            [(py "exe", JStr (Config.exe c));
             (py "path_diff", JStr (Config.path_diff c));
             (py "env", JObj (List.map (fun kv => (fst kv, JStr (snd kv))) (Config.env c)))])
    with [(py "exe", JStr (Config.exe c));
          (py "path_diff", JStr (Config.path_diff c));
          (py "env", JObj (List.map (fun kv => (fst kv, JStr (snd kv))) (Config.env c)))].
  cbn [Config.lookup].
  change (PyStr.eqb (py "exe") (py "exe")) with true.
  change (PyStr.eqb (py "exe") (py "path_diff")) with false.
  change (PyStr.eqb (py "path_diff") (py "path_diff")) with true.
  change (PyStr.eqb (py "exe") (py "env")) with false.
  change (PyStr.eqb (py "path_diff") (py "env")) with false.
  change (PyStr.eqb (py "env") (py "env")) with true.
  cbv iota.
  rewrite dict_of_pairs_nodup.
  - rewrite as_dict_strings. by destruct c.
  - rewrite map_map. cbn [fst]. exact Hnd.
Qed.

End ConfigFacts.

(** * Strings built from decoder output stay decoder output *)

Module TextFacts.
Import Json JsonFacts.

Lemma json_text_tail (c : N) (s : str) : json_text (c :: s) = true -> json_text s = true.
Proof. intros H. by apply json_text_cons in H as (_ & _ & H). Qed.

Lemma json_text_app_inv (a b : str) :
  json_text (a ++ b) = true -> json_text a = true /\ json_text b = true.
Proof.
  induction a as [|c a IH]; [done|]. intros H.
  pose proof (json_text_tail _ _ H) as Ht. destruct (IH Ht) as [Ha Hb].
  split; [|done].
  cbn [app json_text] in H |- *. rewrite Ha, andb_true_r.
  apply andb_true_iff in H as [H _]. apply andb_true_iff in H as [H1 H2].
  rewrite H1. cbn [andb].
  destruct a as [|d a]; [|exact H2].
  by rewrite andb_false_r.
Qed.

(** A code point that is not a surrogate can be put in front. *)
Lemma json_text_cons_plain (c : N) (s : str) :
  (c < 55296)%N -> json_text s = true -> json_text (c :: s) = true.
Proof.
  intros Hc Hs. cbn [json_text]. rewrite Hs, andb_true_r.
  apply andb_true_iff. split; [apply N.ltb_lt; lia|].
  apply negb_true_iff. unfold is_high.
  replace (55296 <=? c)%N with false; [done|].
  symmetry. apply N.leb_gt. lia.
Qed.

Lemma json_text_app_sep (a b : str) (c : N) :
  (c < 55296)%N ->
  json_text a = true -> json_text b = true -> json_text (a ++ c :: b) = true.
Proof.
  intros Hc Ha Hb. induction a as [|x a IH].
  - by apply json_text_cons_plain.
  - apply json_text_cons in Ha as (Hx & Hnext & Ha). specialize (IH Ha).
    cbn [app json_text]. rewrite IH, andb_true_r.
    apply andb_true_iff. split; [by apply N.ltb_lt|].
    apply negb_true_iff.
    destruct (is_high x) eqn:Eh; [|done]. specialize (Hnext eq_refl).
    destruct a as [|d a]; cbn [app andb].
    + unfold is_low. replace (56320 <=? c)%N with false; [done|].
      symmetry. apply N.leb_gt. lia.
    + exact Hnext.
Qed.

Lemma json_text_join (c : N) (l : list str) :
  (c < 55296)%N ->
  Forall (fun x => json_text x = true) l -> json_text (PyStr.join [c] l) = true.
Proof.
  intros Hc. induction 1 as [|x l Hx Hl IH]; [done|].
  destruct l as [|y l]; [done|].
  change (PyStr.join [c] (x :: y :: l)) with (x ++ c :: PyStr.join [c] (y :: l)).
  by apply json_text_app_sep.
Qed.

Lemma json_text_pieces (c : N) (l : list str) :
  json_text (PyStr.join [c] l) = true -> Forall (fun x => json_text x = true) l.
Proof.
  induction l as [|x l IH]; [constructor|].
  destruct l as [|y l]; [by repeat constructor|].
  change (PyStr.join [c] (x :: y :: l)) with (x ++ c :: PyStr.join [c] (y :: l)).
  intros [Hx Hr]%json_text_app_inv. constructor; [done|].
  apply IH. by apply json_text_tail in Hr.
Qed.

Lemma json_text_split (c : N) (s : str) :
  json_text s = true -> Forall (fun x => json_text x = true) (PyStr.split c s).
Proof. intros H. apply (json_text_pieces c). by rewrite join_split. Qed.

Lemma Forall_filter {A} (P : A -> Prop) (f : A -> bool) (l : list A) :
  Forall P l -> Forall P (List.filter f l).
Proof.
  rewrite !List.Forall_forall. intros H x [Hx _]%filter_In. by apply H.
Qed.

Lemma json_text_new_path (hook current : str) :
  json_text hook = true -> json_text (new_path hook current) = true.
Proof.
  intros H. unfold new_path.
  destruct (PyStr.endswith hook current) eqn:E; [|done].
  apply endswith_spec in E as [p ->].
  rewrite slice_to_app. by apply json_text_app_inv in H as [? _].
Qed.

Lemma json_text_path_diff (hook current : str) :
  json_text hook = true -> json_text (path_diff hook current) = true.
Proof.
  intros H. unfold path_diff, path_segments, pathsep.
  apply json_text_join; [done|].
  apply Forall_filter, json_text_split. by apply json_text_new_path.
Qed.

Lemma json_text_lstrip (s : str) :
  json_text s = true -> json_text (PosixPath.lstrip s) = true.
Proof.
  induction s as [|c s IH]; [done|]. intros H. simpl.
  destruct (N.eqb c PosixPath.sep_char); [|done].
  apply IH. by apply json_text_tail in H.
Qed.

Lemma Path_ok (s : str) : json_text s = true -> path_ok (PosixPath.Path s).
Proof.
  intros H. unfold PosixPath.Path, PosixPath.splitroot.
  destruct s as [|c s].
  { split; [by left|]. simpl. constructor. }
  destruct (N.eqb c PosixPath.sep_char).
  - pose proof (json_text_lstrip _ H) as Hl.
    destruct (_ =? 2)%nat; (split; [cbn [PosixPath.root]; auto|]);
      cbn [PosixPath.parts]; by apply Forall_filter, json_text_split.
  - split; [by left|]. cbn [PosixPath.parts].
    by apply Forall_filter, json_text_split.
Qed.

Lemma truediv_ok (p : PosixPath.t) (key : str) :
  path_ok p -> json_text key = true -> path_ok (p /p key).
Proof.
  intros [Hr Hp] Hk. pose proof (Path_ok key Hk) as [Hr' Hp'].
  unfold PosixPath.truediv. destruct (PyStr.truthy _); [done|].
  split; [done|]. cbn [PosixPath.parts]. by apply Forall_app.
Qed.

Lemma to_str_ok (p : PosixPath.t) : path_ok p -> json_text (PosixPath.to_str p) = true.
Proof.
  intros [Hr Hp]. unfold PosixPath.to_str.
  destruct (PyStr.truthy _); [|done].
  pose proof (json_text_join PosixPath.sep_char _ ltac:(done) Hp) as Hj.
  fold PosixPath.sep in Hj.
  destruct Hr as [-> | [-> | ->]]; [done| |];
    repeat (apply json_text_cons_plain; [done|]); done.
Qed.

Lemma json_text_exe_path (prefix name : str) :
  json_text prefix = true -> json_text name = true ->
  json_text (exe_path prefix name) = true.
Proof.
  intros Hp Hn. unfold exe_path.
  apply to_str_ok, truediv_ok; [|done].
  apply truediv_ok; [|done]. by apply Path_ok.
Qed.

Lemma json_dict_In (d : dict) (k v : str) :
  json_dict d = true -> In (k, v) d -> json_text k = true /\ json_text v = true.
Proof.
  unfold json_dict. rewrite forallb_forall. intros H Hin.
  by apply andb_true_iff, (H (k, v)).
Qed.

Lemma json_dict_filtered (d : dict) (exclude : option (list yaml)) :
  json_dict d = true -> json_dict (filtered_env d exclude) = true.
Proof.
  unfold json_dict, filtered_env. rewrite !forallb_forall.
  intros H x [Hx _]%filter_In. by apply H.
Qed.

Lemma NoDup_keys_filter {A B} (f : A * B -> bool) (l : list (A * B)) :
  List.NoDup (List.map fst l) -> List.NoDup (List.map fst (List.filter f l)).
Proof.
  induction l as [|x l IH]; [done|]. simpl. intros Hnd.
  inversion Hnd as [|? ? Hx Hl]; subst.
  destruct (f x); [|by apply IH]. simpl. constructor; [|by apply IH].
  intros Hin. apply Hx. apply in_map_iff in Hin as (y & Hy & Hin).
  apply filter_In in Hin as [Hin _]. apply in_map_iff. eauto.
Qed.

End TextFacts.

(** * Publishing twice *)

Lemma apply_writes_outside (ops : list (N * str)) (d : gmap N str) (i : N) :
  ~ In i (List.map fst ops) -> apply_writes ops d !! i = d !! i.
Proof.
  revert d. induction ops as [|[k v] ops IH]; intros d Hi; [done|].
  simpl in *. unfold apply_writes in *. simpl. rewrite IH by tauto.
  apply lookup_insert_ne. tauto.
Qed.

Lemma apply_writes_agree (ops : list (N * str)) (d d' : gmap N str) :
  (forall i, ~ In i (List.map fst ops) -> d !! i = d' !! i) ->
  apply_writes ops d = apply_writes ops d'.
Proof.
  revert d d'. induction ops as [|[k v] ops IH]; intros d d' H.
  - apply map_eq. intros i. apply H. intros [].
  - unfold apply_writes. simpl. apply IH. intros i Hi.
    destruct (decide (k = i)) as [->|Hne].
    + by rewrite !lookup_insert_eq.
    + rewrite !lookup_insert_ne by done. apply H. simpl. tauto.
Qed.

(** Writing the same contents a second time changes nothing. *)
Lemma apply_writes_twice (ops : list (N * str)) (d : gmap N str) :
  apply_writes ops (apply_writes ops d) = apply_writes ops d.
Proof. apply apply_writes_agree. intros i Hi. by apply apply_writes_outside. Qed.

Section Twice.

Variable environ : gmap str str.
Variable home : str.
Variables (prefix pdiff : str) (fenv : dict).

Local Abbreviation T := (dispatch_key environ home).
Local Abbreviation L := (link_key environ home).
Local Abbreviation C := (config_key environ home).
Local Abbreviation X := (config_text prefix pdiff fenv).
Local Abbreviation body := (publish_app environ home prefix pdiff fenv).
Local Abbreviation static := (publishable environ home).

Lemma publish_app_ok (a : str) (f f' : fs) :
  body (YStr a) f = (Ok tt, f') ->
  T <> L a ->
  exists j t,
    static (dirs f) a
    /\ dirs f' = dirs f
    /\ names f' = <[L a := t]> (<[C a := j]> (names f))
    /\ data f' = <[j := X a]> (data f)
    /\ <[C a := j]> (names f) !! T = Some t
    /\ (forall j', names f !! C a = Some j' -> j' = j).
Proof.
  intros H HT. unfold body, publish_app in H.
  apply io_bind_inv in H as [(? & f1 & Hw & H)|(e & _ & [=])].
  apply io_bind_inv in H as [(? & f2 & Hu & H)|(e & _ & [=])].
  apply write_text_inv in Hw as [[_ [e [=]]]|(_ & Hc1 & Hc2 & j & Hd1 & Hn1 & Hdat1 & Hj)].
  apply unlink_inv in Hu as [[_ [e [=]]]|(_ & Hl1 & Hd2 & Hn2 & Hdat2)].
  apply link_inv in H as [[_ [e [=]]]|(_ & _ & Hl2 & _ & t & Ht & Hd3 & Hn3 & Hdat3)].
  fold T in Ht. fold (L a) in Hl1, Hl2, Hn2, Hn3. fold (C a) in Hc1, Hn1, Hj.
  exists j, t. rewrite Hd1 in Hl1. rewrite Hd2, Hd1 in Hl2.
  split; [done|]. split; [by rewrite Hd3, Hd2, Hd1|].
  split. { rewrite Hn3, Hn2, Hn1. apply insert_delete_eq. }
  split; [by rewrite Hdat3, Hdat2, Hdat1|].
  split. { rewrite Hn2, Hn1 in Ht. by rewrite lookup_delete_ne in Ht. }
  intros j' Hj'. destruct Hj as [Hj|[Hj _]]; congruence.
Qed.

Lemma body_ok_str (app : yaml) (f f' : fs) :
  body app f = (Ok tt, f') -> exists a, app = YStr a.
Proof. destruct app; try (intros [=]). eauto. Qed.

(** A name that is not a link path of the run keeps its inode. *)
Lemma run_keeps_names (l : list yaml) (f f1 : fs) :
  for_each body l f = (Ok tt, f1) ->
  (forall a, In (YStr a) l -> T <> L a) ->
  forall p j, names f !! p = Some j ->
              (forall a, In (YStr a) l -> p <> L a) ->
              names f1 !! p = Some j.
Proof.
  revert f. induction l as [|app l IH]; intros f H HT p j Hp Hne.
  - by injection H as <-.
  - simpl in H. apply io_bind_inv in H as [([] & f' & Hb & H)|(e & _ & [=])].
    destruct (body_ok_str _ _ _ Hb) as [a ->].
    destruct (publish_app_ok a f f' Hb (HT a ltac:(by left)))
      as (j' & t & _ & _ & Hn & _ & _ & Hsame).
    apply (IH f' H); [intros; apply HT; by right| |intros; apply Hne; by right].
    rewrite Hn, lookup_insert_ne by (intros E; by apply (Hne a ltac:(by left))).
    destruct (decide (C a = p)) as [<-|Hcp].
    + rewrite lookup_insert_eq. f_equal. symmetry. by apply Hsame.
    + by rewrite lookup_insert_ne.
Qed.

(** A name linked to the inode of the dispatch binary stays linked to
    it. *)
Lemma run_keeps_dispatch (l : list yaml) (f f1 : fs) (t : N) :
  for_each body l f = (Ok tt, f1) ->
  (forall a, In (YStr a) l -> T <> L a) ->
  names f !! T = Some t ->
  forall p, names f !! p = Some t -> names f1 !! p = Some t.
Proof.
  revert f. induction l as [|app l IH]; intros f H HT Ht p Hp.
  - by injection H as <-.
  - simpl in H. apply io_bind_inv in H as [([] & f' & Hb & H)|(e & _ & [=])].
    destruct (body_ok_str _ _ _ Hb) as [a ->].
    pose proof (HT a ltac:(by left)) as HTa.
    destruct (publish_app_ok a f f' Hb HTa)
      as (j' & t' & _ & _ & Hn & _ & Ht' & Hsame).
    assert (forall q, names f !! q = Some t -> <[C a := j']> (names f) !! q = Some t) as Hmid.
    { intros q Hq. destruct (decide (C a = q)) as [<-|Hcq].
      - rewrite lookup_insert_eq. f_equal. symmetry. by apply Hsame.
      - by rewrite lookup_insert_ne. }
    assert (t' = t) as -> by (rewrite (Hmid T Ht) in Ht'; congruence).
    assert (forall q, names f !! q = Some t -> names f' !! q = Some t) as Hstep.
    { intros q Hq. rewrite Hn. destruct (decide (L a = q)) as [<-|Hlq].
      - by rewrite lookup_insert_eq.
      - rewrite lookup_insert_ne by done. by apply Hmid. }
    apply (IH f' H); [intros; apply HT; by right|by apply Hstep|by apply Hstep].
Qed.

(** The file system a successful run leaves behind. *)
Lemma first_run (l : list yaml) (f f1 : fs) :
  for_each body l f = (Ok tt, f1) ->
  (forall a, In (YStr a) l -> T <> L a) ->
  (forall a b, In (YStr a) l -> In (YStr b) l -> C a <> L b) ->
  (forall a, In (YStr a) l -> C a <> T) ->
  dirs f1 = dirs f
  /\ (forall app, In app l -> exists a, app = YStr a)
  /\ (forall a, In (YStr a) l ->
        static (dirs f) a
        /\ (exists t, names f !! T = Some t /\ names f1 !! T = Some t
                      /\ names f1 !! L a = Some t)
        /\ is_Some (names f1 !! C a))
  /\ data f1 = apply_writes (writes C X (names f1) l) (data f).
Proof.
  revert f. induction l as [|app l IH]; intros f H HT HCL HCT.
  - injection H as <-. repeat split; try done; intros ? [].
  - simpl in H. apply io_bind_inv in H as [([] & f' & Hb & H)|(e & _ & [=])].
    destruct (body_ok_str _ _ _ Hb) as [a ->].
    pose proof (HT a ltac:(by left)) as HTa.
    destruct (publish_app_ok a f f' Hb HTa)
      as (j & t & Hst & Hd & Hn & Hdat & Ht & Hsame).
    assert (forall a', In (YStr a') l -> T <> L a') as HT' by (intros; apply HT; by right).
    assert (forall a' b, In (YStr a') l -> In (YStr b) l -> C a' <> L b) as HCL'
      by (intros; apply HCL; by right).
    assert (forall a', In (YStr a') l -> C a' <> T) as HCT' by (intros; apply HCT; by right).
    destruct (IH f' H HT' HCL' HCT') as (Hd' & Hstr & Hper & Hdat').
    assert (names f' !! T = Some t) as HtT.
    { rewrite Hn, lookup_insert_ne by (intros E; by apply HTa). exact Ht. }
    assert (names f !! T = Some t) as HtT0.
    { rewrite lookup_insert_ne in Ht; [done|]. apply HCT. by left. }
    assert (names f1 !! T = Some t) as HtT1
      by (apply (run_keeps_dispatch l f' f1 t H HT' HtT); exact HtT).
    split; [congruence|]. split.
    { intros app [<-|Hin]; [eauto|by apply Hstr]. }
    assert (names f1 !! C a = Some j) as HCa.
    { apply (run_keeps_names l f' f1 H HT').
      - rewrite Hn. rewrite lookup_insert_ne by (apply not_eq_sym, HCL; by left).
        apply lookup_insert_eq.
      - intros b Hb'. apply HCL; [by left|by right]. }
    split.
    { intros a' [[= <-]|Hin].
      - split; [done|]. split; [|by rewrite HCa].
        exists t. split; [done|]. split; [done|].
        apply (run_keeps_dispatch l f' f1 t H HT' HtT).
        rewrite Hn. apply lookup_insert_eq.
      - destruct (Hper a' Hin) as (Hst' & (t' & Ht1 & Ht2 & Ht3) & Hc).
        rewrite Hd in Hst'. split; [done|]. split; [|done].
        exists t. assert (t' = t) as -> by congruence. done. }
    rewrite Hdat', Hdat. unfold writes. cbn [List.flat_map]. fold (writes C X (names f1) l).
    by rewrite HCa.
Qed.

(** A run on a file system that already has every link and every
    configuration file only rewrites the contents. *)
Lemma second_run (l : list yaml) (d : gset str) (nm : gmap str N) (t : N) :
  (forall app, In app l -> exists a, app = YStr a) ->
  (forall a, In (YStr a) l ->
     static d a /\ nm !! L a = Some t /\ is_Some (nm !! C a)) ->
  (forall a, In (YStr a) l -> T <> L a) ->
  (l <> [] -> nm !! T = Some t) ->
  forall dat,
    for_each body l (mkfs d nm dat)
    = (Ok tt, mkfs d nm (apply_writes (writes C X nm l) dat)).
Proof.
  intros Hstr Hper HT Ht. induction l as [|app l IH]; intros dat; [done|].
  destruct (Hstr app ltac:(by left)) as [a ->].
  destruct (Hper a ltac:(by left)) as ((Hc1 & Hc2 & Hl1 & Hl2) & HL & [j Hj]).
  specialize (Ht ltac:(done)). pose proof (HT a ltac:(by left)) as HTa.
  assert (body (YStr a) (mkfs d nm dat) = (Ok tt, mkfs d nm (<[j := X a]> dat))) as Hstep.
  { unfold body, publish_app, io_bind.
    unfold write_text. cbn [dirs names data].
    fold (C a). rewrite decide_False by done. rewrite decide_True by done. rewrite Hj.
    unfold unlink. cbn [dirs names data]. fold (L a). rewrite decide_False by done.
    unfold link. cbn [dirs names data]. fold T. fold (L a).
    rewrite lookup_delete_ne by (intros E; by apply HTa). rewrite Ht.
    rewrite decide_False by done. rewrite lookup_delete_eq.
    rewrite decide_True by done.
    rewrite insert_delete_eq, insert_id by done. done. }
  cbn [for_each]. unfold io_bind at 1. rewrite Hstep.
  rewrite IH.
  - unfold writes. cbn [List.flat_map]. rewrite Hj. done.
  - intros; apply Hstr; by right.
  - intros; apply Hper; by right.
  - intros; apply HT; by right.
  - done.
Qed.

(** A successful run is a fixed point of running again, when no link
    path of the entry is one of its configuration paths or the dispatch
    binary. *)
Lemma run_twice (l : list yaml) (f f1 : fs) :
  for_each body l f = (Ok tt, f1) ->
  (forall a, In (YStr a) l -> T <> L a) ->
  (forall a b, In (YStr a) l -> In (YStr b) l -> C a <> L b) ->
  (forall a, In (YStr a) l -> C a <> T) ->
  for_each body l f1 = (Ok tt, f1)
  /\ forall a, In (YStr a) l ->
       exists t, names f !! T = Some t /\ names f1 !! T = Some t
                 /\ names f1 !! L a = Some t.
Proof.
  intros H HT HCL HCT.
  destruct (first_run l f f1 H HT HCL HCT) as (Hd & Hstr & Hper & Hdat).
  split; [|intros a Ha; by destruct (Hper a Ha) as (_ & ? & _)].
  destruct l as [|app l].
  { by injection H as <-. }
  destruct (Hstr app ltac:(by left)) as [a0 ->].
  destruct (Hper a0 ltac:(by left)) as (_ & (t & Ht0 & Ht1 & _) & _).
  destruct f1 as [d1 nm1 dat1]. cbn [dirs names data] in *.
  rewrite (second_run (YStr a0 :: l) d1 nm1 t Hstr).
  - rewrite Hdat, apply_writes_twice. done.
  - intros a Ha. destruct (Hper a Ha) as (Hst & (t' & Ht0' & _ & HL) & Hc).
    rewrite Hd. split; [done|]. split; [|done]. congruence.
  - done.
  - done.
Qed.

End Twice.

(** * Plain names keep the three kinds of path apart *)

Lemma to_str_snoc (r : str) (b : list str) (x : str) :
  b <> [] ->
  PosixPath.to_str (PosixPath.mk r (b ++ [x]))
  = r ++ PyStr.join PosixPath.sep b ++ PosixPath.sep ++ x.
Proof.
  intros Hb. unfold PosixPath.to_str. cbn [PosixPath.root PosixPath.parts].
  rewrite join_app by done. cbn [PyStr.join].
  rewrite (proj2 (truthy_true _)); [done|].
  intros [_ E]%app_eq_nil. apply app_eq_nil in E as [_ E]. discriminate E.
Qed.

Lemma plain_name_json (b : str) :
  plain_name b = true -> plain_name (b ++ py ".json") = true.
Proof.
  intros (Hne & _ & Hsep)%plain_name_spec. apply plain_name_spec.
  split; [by destruct b|]. split.
  - intros E. apply (f_equal (@length N)) in E. rewrite length_app in E.
    simpl in E. lia.
  - intros [Hin|Hin]%in_app_or; [done|].
    simpl in Hin. unfold PosixPath.sep_char in Hin.
    repeat (destruct Hin as [Hin|Hin]; [discriminate Hin|]). done.
Qed.

Section PlainPaths.

Variable environ : gmap str str.
Variable home : str.

Local Abbreviation base :=
  (PosixPath.parts (get_pixi_home environ home) ++ [py "bin"]).
Local Abbreviation rt := (PosixPath.root (get_pixi_home environ home)).
Local Abbreviation stem := (bin_stem environ home).

Lemma base_not_nil : base <> [].
Proof. unfold base. by destruct (PosixPath.parts _). Qed.

Lemma link_path_plain (a : str) :
  plain_name a = true ->
  PosixPath.to_str (link_path environ home a) = stem ++ a.
Proof.
  intros Ha. unfold link_path, bin_dir.
  rewrite (truediv_plain _ (py "bin")) by reflexivity.
  rewrite truediv_plain by done. cbn [PosixPath.root PosixPath.parts].
  fold base rt. rewrite to_str_snoc by apply base_not_nil.
  unfold stem. by rewrite <- !app_assoc.
Qed.

Lemma below_config_dir (x : str) :
  plain_name x = true ->
  PosixPath.to_str
    (get_pixi_home environ home /p py "bin" /p py "trampoline_configuration" /p x)
  = stem ++ py "trampoline_configuration" ++ PosixPath.sep ++ x.
Proof.
  intros Hx.
  rewrite (truediv_plain _ (py "bin")) by reflexivity.
  rewrite (truediv_plain _ (py "trampoline_configuration")) by reflexivity.
  rewrite truediv_plain by done. cbn [PosixPath.root PosixPath.parts].
  fold base rt.
  rewrite to_str_snoc by (pose proof base_not_nil; by destruct base).
  rewrite join_app by (done || apply base_not_nil).
  unfold stem. cbn [PyStr.join]. by rewrite <- !app_assoc.
Qed.

Lemma config_path_plain (b : str) :
  plain_name b = true ->
  PosixPath.to_str (config_path environ home b)
  = stem ++ py "trampoline_configuration" ++ PosixPath.sep ++ b ++ py ".json".
Proof.
  intros Hb. unfold config_path, config_dir, bin_dir.
  by rewrite below_config_dir by by apply plain_name_json.
Qed.

Lemma trampoline_bin_str :
  PosixPath.to_str (get_trampoline_bin environ home)
  = stem ++ py "trampoline_configuration" ++ PosixPath.sep ++ py "trampoline_bin".
Proof. unfold get_trampoline_bin. by rewrite below_config_dir by reflexivity. Qed.

Lemma has_sep (a x y : str) :
  a = x ++ PosixPath.sep ++ y -> In PosixPath.sep_char a.
Proof. intros ->. apply in_or_app. right. by left. Qed.

Lemma plain_link_not_config (a b : str) :
  plain_name a = true -> plain_name b = true ->
  PosixPath.to_str (config_path environ home b)
  <> PosixPath.to_str (link_path environ home a).
Proof.
  intros Ha Hb. rewrite link_path_plain, config_path_plain by done.
  intros E%app_inv_head. symmetry in E. apply has_sep in E.
  by apply plain_name_spec in Ha as (_ & _ & Hs).
Qed.

Lemma plain_link_not_dispatch (a : str) :
  plain_name a = true ->
  PosixPath.to_str (get_trampoline_bin environ home)
  <> PosixPath.to_str (link_path environ home a).
Proof.
  intros Ha. rewrite link_path_plain, trampoline_bin_str by done.
  intros E%app_inv_head. symmetry in E. apply has_sep in E.
  by apply plain_name_spec in Ha as (_ & _ & Hs).
Qed.

Lemma plain_config_not_dispatch (a : str) :
  plain_name a = true ->
  PosixPath.to_str (config_path environ home a)
  <> PosixPath.to_str (get_trampoline_bin environ home).
Proof.
  intros Ha. rewrite config_path_plain, trampoline_bin_str by done.
  intros E%app_inv_head. apply app_inv_head in E. apply app_inv_head in E.
  assert (length a = 9%nat) as Hlen.
  { apply (f_equal (@length N)) in E. rewrite length_app in E. simpl in E. lia. }
  apply (f_equal (skipn 9)) in E.
  rewrite skipn_app, Hlen, Nat.sub_diag, skipn_all2 in E by lia.
  discriminate E.
Qed.

End PlainPaths.

(** * Round trip and idempotence *)

Lemma path_diff_segments (hook current : str) :
  List.filter PyStr.truthy (PyStr.split pathsep_char (path_diff hook current))
  = path_segments hook current.
Proof.
  unfold path_diff.
  assert (Forall (fun x => ~ In pathsep_char x) (path_segments hook current)) as Hsep
    by (apply TextFacts.Forall_filter, split_no_sep).
  assert (forall l : list str,
            Forall (fun x => PyStr.truthy x = true) l -> List.filter PyStr.truthy l = l)
    as Hid.
  { induction 1 as [|x l Hx _ IH]; [done|]. simpl. by rewrite Hx, IH. }
  assert (Forall (fun x => PyStr.truthy x = true) (path_segments hook current)) as Htr.
  { apply List.Forall_forall. intros x Hx. by apply filter_In in Hx as [_ ?]. }
  destruct (path_segments hook current) as [|s l] eqn:E; [done|].
  unfold pathsep. rewrite split_join by done. by apply Hid.
Qed.

Lemma write_then_read (p : PosixPath.t) (text : str) (f f' : fs) :
  write_text p text f = (Ok tt, f') -> read_text f' p = Some text.
Proof.
  intros H. apply write_text_inv in H as [[_ [e [=]]]|(_ & _ & _ & i & _ & Hn & Hd & _)].
  unfold read_text. rewrite Hn, lookup_insert_eq, Hd. apply lookup_insert_eq.
Qed.

Section RoundTrip.

Variable environ : gmap str str.
Variable home : str.



End RoundTrip.

(** * The sample run *)



(** * The theorems at the sample run *)

(** A captured environment without the prefix. *)
Lemma missing_active_prefix_witness :
  expose_entry sample_environ sample_home captured_without_prefix
    (entry_of_apps [YStr (py "foo")]) sample_fs
  = (Raise (RuntimeError
       (py "CONDA_PREFIX not found in shell-hook output for environment 'default'")),
     sample_fs).
Proof.
  refine (proj1 (missing_active_prefix sample_environ sample_home
                   captured_without_prefix (entry_of_apps [YStr (py "foo")]) sample_fs _)).
  vm_compute. intros [H|[H|[]]]; discriminate H.
Defined.

(** A captured environment whose prefix is the empty string. *)
Lemma empty_active_prefix_witness :
  expose_entry sample_environ sample_home captured_empty_prefix
    (entry_of_apps [YStr (py "foo")]) sample_fs
  = (Raise (RuntimeError
       (py "CONDA_PREFIX not found in shell-hook output for environment 'default'")),
     sample_fs).
Proof.
  refine (proj1 (empty_active_prefix sample_environ sample_home
                   captured_empty_prefix (entry_of_apps [YStr (py "foo")]) sample_fs _)).
  reflexivity.
Defined.

(** The sample run publishes [foo] and writes inode 2. *)
Lemma sample_run_foo :
  sample_run [YStr (py "foo")] sample_fs
  = (Ok tt, snd (sample_run [YStr (py "foo")] sample_fs)).
Proof. vm_compute. reflexivity. Qed.

Lemma sample_run_foo_writes :
  data (snd (sample_run [YStr (py "foo")] sample_fs)) !! 2%N <> data sample_fs !! 2%N.
Proof. vm_compute. discriminate. Qed.

(** The record of [foo] in the sample run. *)
Lemma published_environment_invariant_witness :
  exists cfg : Config.t,
    data (snd (sample_run [YStr (py "foo")] sample_fs)) !! 2%N
    = Some (Json.dumps (Config.to_json cfg))
    /\ forall k v, In (k, v) (Config.env cfg) ->
         In (k, v) sample_captured
         /\ k <> py "PATH"
         /\ (forall rest, k <> py "PIXI_" ++ rest)
         /\ (forall l, exclude_env_vars (entry_of_apps [YStr (py "foo")]) = Some l ->
             ~ In (YStr k) l).
Proof.
  exact (published_environment_invariant sample_environ sample_home sample_captured
           (entry_of_apps [YStr (py "foo")]) sample_fs _ _
           sample_run_foo 2%N sample_run_foo_writes).
Defined.


Lemma sample_captured_keys : List.NoDup (List.map fst sample_captured).
Proof.
  vm_compute.
  repeat (constructor;
          [intros H; repeat (destruct H as [H|H]; [discriminate H|]); exact H|]).
  constructor.
Qed.



(** * The repository stager *)

Section Stager.

Local Abbreviation sep := PosixPath.sep_char.

Lemma rstrip_snoc_other (s : str) (x : N) :
  x <> sep -> PyStrMore.rstrip sep (s ++ [x]) = s ++ [x].
Proof.
  intros Hx. induction s as [|c s IH]; simpl.
  - apply N.eqb_neq in Hx. by rewrite Hx.
  - rewrite IH. by destruct s.
Qed.

Lemma rstrip_snoc_sep (s : str) :
  PyStrMore.rstrip sep (s ++ [sep]) = PyStrMore.rstrip sep s.
Proof.
  induction s as [|c s IH]; simpl.
  - done.
  - by rewrite IH.
Qed.

Lemma rstrip_nil_or_last (s : str) :
  PyStrMore.rstrip sep s = []
  \/ exists p x, PyStrMore.rstrip sep s = p ++ [x] /\ x <> sep.
Proof.
  induction s as [|c s IH]; [by left|]. simpl.
  destruct IH as [->|(p & x & -> & Hx)].
  - destruct (N.eqb_spec c sep); [by left|]. right. by exists [], c.
  - right. exists (c :: p), x. split; [|done]. by destruct p.
Qed.

(** [rsplit1] cuts at the last separator. *)
Lemma rsplit1_spec (s : str) :
  (~ In sep s /\ PyStrMore.rsplit1 sep s = [s])
  \/ (exists h t, s = h ++ sep :: t /\ ~ In sep t
                  /\ PyStrMore.rsplit1 sep s = [h; t]).
Proof.
  induction s as [|x r IH]; [left; split; [intros []|done]|].
  destruct IH as [[Hn Hr]|(h & t & -> & Ht & Hr)]; simpl; rewrite Hr.
  - destruct (N.eqb_spec x sep) as [->|Hx].
    + right. by exists [], r.
    + left. split; [|done]. intros [?|?]; done.
  - right. by exists (x :: h), t.
Qed.

Lemma rsplit1_last_app (h t : str) :
  ~ In sep t -> List.last (PyStrMore.rsplit1 sep (h ++ sep :: t)) [] = t.
Proof.
  intros Ht. destruct (rsplit1_spec (h ++ sep :: t)) as [[Hn _]|(h' & t' & E & Ht' & ->)].
  - destruct Hn. apply in_or_app. right. by left.
  - simpl. clear -E Ht Ht'. revert h' E. induction h as [|c h IH]; intros h' E.
    + destruct h' as [|c' h']; simpl in E.
      * congruence.
      * injection E as <- ->. destruct Ht. apply in_or_app. right. by left.
    + destruct h' as [|c' h']; simpl in E.
      * injection E as -> <-. destruct Ht'. apply in_or_app. right. by left.
      * injection E as _ E. by apply (IH h').
Qed.

Lemma rsplit1_last_no_sep (s : str) :
  ~ In sep (List.last (PyStrMore.rsplit1 sep s) []).
Proof.
  destruct (rsplit1_spec s) as [[Hn ->]|(h & t & _ & Ht & ->)]; done.
Qed.

Lemma removesuffix_app (n suffix : str) :
  suffix <> [] -> PyStrMore.removesuffix (n ++ suffix) suffix = n.
Proof.
  intros Hs. unfold PyStrMore.removesuffix.
  rewrite (proj2 (truthy_true suffix) Hs).
  rewrite (proj2 (endswith_spec (n ++ suffix) suffix)) by eauto. cbn [andb].
  unfold PyStr.slice_to. rewrite length_app.
  destruct (Z.ltb_spec (- Z.of_nat (length suffix)) 0).
  - replace (Z.to_nat _) with (length n) by lia.
    rewrite firstn_app, Nat.sub_diag, firstn_all. simpl. by rewrite app_nil_r.
  - destruct suffix; [done|simpl in *; lia].
Qed.

Lemma removesuffix_prefix (s suffix : str) :
  PyStrMore.removesuffix s suffix = s
  \/ s = PyStrMore.removesuffix s suffix ++ suffix.
Proof.
  destruct (PyStr.truthy suffix && PyStr.endswith s suffix) eqn:E.
  - apply andb_true_iff in E as [Ht%truthy_true [p ->]%endswith_spec].
    right. by rewrite removesuffix_app.
  - left. unfold PyStrMore.removesuffix. by rewrite E.
Qed.

Lemma removesuffix_other (s suffix : str) :
  (forall p, s <> p ++ suffix) -> PyStrMore.removesuffix s suffix = s.
Proof.
  intros H. unfold PyStrMore.removesuffix.
  destruct (PyStr.endswith s suffix) eqn:E; [|by rewrite andb_false_r].
  apply endswith_spec in E as [p ->]. by destruct (H p).
Qed.

(** X1. The directory name derived from a repository locator never
    contains a path separator. *)
Theorem repo_name_no_separator (git_url : str) :
  ~ In PosixPath.sep_char (repo_name git_url).
Proof.
  unfold repo_name.
  pose proof (rsplit1_last_no_sep (PyStrMore.rstrip sep git_url)) as Hn.
  destruct (removesuffix_prefix
              (List.last (PyStrMore.rsplit1 sep (PyStrMore.rstrip sep git_url)) [])
              (py ".git")) as [->|E]; [done|].
  intros Hin. apply Hn. rewrite E. apply in_or_app. by left.
Qed.

Lemma repo_name_last (p n : str) :
  ~ In sep n -> n <> [] ->
  repo_name (p ++ sep :: n) = PyStrMore.removesuffix n (py ".git").
Proof.
  intros Hn Hne. unfold repo_name.
  destruct (@exists_last _ n Hne) as (n' & x & ->).
  assert (x <> sep) as Hx by (intros ->; apply Hn, in_or_app; right; by left).
  change (p ++ sep :: n' ++ [x]) with (p ++ (sep :: n') ++ [x]).
  rewrite app_assoc, rstrip_snoc_other by done. rewrite <- app_assoc.
  cbn [app]. by rewrite rsplit1_last_app.
Qed.

(** X2. The name is the last component of the locator: a [.git] suffix is
    dropped once, trailing slashes do not count, and what precedes the
    last component does not matter. *)
Theorem repo_name_of_url (p n : str) :
  ~ In PosixPath.sep_char n ->
  repo_name (p ++ PosixPath.sep ++ n ++ py ".git") = n
  /\ (n <> [] -> (forall q, n <> q ++ py ".git") ->
      repo_name (p ++ PosixPath.sep ++ n) = n)
  /\ (forall u, repo_name (u ++ PosixPath.sep) = repo_name u).
Proof.
  intros Hn. split; [|split].
  - cbn [PosixPath.sep app]. rewrite repo_name_last.
    + by apply removesuffix_app.
    + intros [?|Hin]%in_app_or; [done|].
      unfold sep, PosixPath.sep_char in Hin. simpl in Hin.
      repeat (destruct Hin as [Hin|Hin]; [discriminate Hin|]). done.
    + by destruct n.
  - intros Hne Hgit. cbn [PosixPath.sep app]. rewrite repo_name_last by done.
    by apply removesuffix_other.
  - intros u. unfold repo_name, PosixPath.sep. by rewrite rstrip_snoc_sep.
Qed.

End Stager.

Lemma repo_name_of_url_witness :
  repo_name (py "https://example.org/org/tool.git") = py "tool".
Proof.
  refine (proj1 (repo_name_of_url (py "https://example.org/org") (py "tool") _)).
  vm_compute. intros H. repeat (destruct H as [H|H]; [discriminate H|]). exact H.
Defined.

(** * Where the clone goes, and the commands run on it *)

Lemma keep_false (x : str) : PosixPath.keep x = false <-> x = [] \/ x = py ".".
Proof.
  unfold PosixPath.keep. rewrite andb_false_iff, negb_false_iff, truthy_false, eqb_eq.
  tauto.
Qed.

Lemma truediv_not_kept (p : PosixPath.t) (x : str) :
  x = [] \/ x = py "." -> p /p x = p.
Proof. intros [-> | ->]; destruct p; unfold PosixPath.truediv; simpl; by rewrite app_nil_r. Qed.

Lemma truediv_parts_keep (p : PosixPath.t) (key : str) :
  Forall (fun x => PosixPath.keep x = true) (PosixPath.parts p) ->
  Forall (fun x => PosixPath.keep x = true) (PosixPath.parts (p /p key)).
Proof.
  intros H. unfold PosixPath.truediv. pose proof (Path_parts_keep key) as Hk.
  destruct (PyStr.truthy _); [done|]. cbn [PosixPath.parts]. by apply Forall_app.
Qed.

(** Below a path with at least one component, [/] with a plain name
    appends a separator and the name. *)
Lemma to_str_truediv_plain (p : PosixPath.t) (x : str) :
  PosixPath.parts p <> [] ->
  Forall (fun y => PosixPath.keep y = true) (PosixPath.parts p) ->
  plain_name x = true ->
  PosixPath.to_str (p /p x) = PosixPath.to_str p ++ PosixPath.sep ++ x.
Proof.
  intros Hne Hkeep Hx. rewrite truediv_plain by done.
  rewrite to_str_snoc by done. destruct p as [r b]. cbn [PosixPath.root PosixPath.parts] in *.
  unfold PosixPath.to_str. cbn [PosixPath.root PosixPath.parts].
  rewrite (proj2 (truthy_true (r ++ PyStr.join PosixPath.sep b))).
  - by rewrite <- app_assoc.
  - intros [_ E]%app_eq_nil. by apply (join_not_nil PosixPath.sep b).
Qed.

Lemma clone_base_parts (environ : gmap str str) :
  PosixPath.parts (get_clone_base_dir environ) <> []
  /\ Forall (fun y => PosixPath.keep y = true) (PosixPath.parts (get_clone_base_dir environ)).
Proof.
  unfold get_clone_base_dir. split.
  - rewrite truediv_plain by reflexivity. cbn [PosixPath.parts].
    by destruct (PosixPath.parts _).
  - apply truediv_parts_keep, Path_parts_keep.
Qed.

Lemma clone_dir_parts (environ : gmap str str) (e : entry) :
  PosixPath.parts (clone_dir environ e) <> []
  /\ Forall (fun y => PosixPath.keep y = true) (PosixPath.parts (clone_dir environ e)).
Proof.
  destruct (clone_base_parts environ) as [Hne Hkeep]. unfold clone_dir. split.
  - destruct (PosixPath.keep (repo_name (git e))) eqn:Ek.
    + rewrite truediv_plain.
      * cbn [PosixPath.parts]. by destruct (PosixPath.parts _).
      * unfold plain_name. rewrite Ek. cbn [andb]. apply negb_true_iff.
        destruct (existsb _ _) eqn:Ex; [|done].
        apply existsb_exists in Ex as (c & Hin & <-%N.eqb_eq).
        by apply repo_name_no_separator in Hin.
    + by rewrite truediv_not_kept by by apply keep_false.
  - by apply truediv_parts_keep.
Qed.

(** X3. The clone directory is the base directory followed by the
    repository name; a locator whose name is empty or ["."] (it ends in
    [/.git], or is made of slashes) is cloned into the base directory
    itself. *)
Theorem clone_dir_placement (environ : gmap str str) (e : entry) :
  let name := repo_name (git e) in
  let base := get_clone_base_dir environ in
  (name = [] \/ name = py "." -> clone_dir environ e = base)
  /\ (name <> [] -> name <> py "." ->
      PosixPath.to_str (clone_dir environ e)
      = PosixPath.to_str base ++ PosixPath.sep ++ name).
Proof.
  intros name base. split.
  - intros H. by apply truediv_not_kept.
  - intros H1 H2. destruct (clone_base_parts environ) as [Hne Hkeep].
    apply to_str_truediv_plain; [done|done|].
    apply plain_name_spec. repeat split; try done. apply repo_name_no_separator.
Qed.

Lemma parse_input_fields (safe_load : str -> result yaml)
      (environ : gmap str str) (e : entry) :
  parse_input safe_load environ = Ok e ->
  git e = environ_get environ (py "INPUT_GIT")
  /\ git e <> []
  /\ ref e = optional_input environ (py "INPUT_REF")
  /\ environment e = optional_input environ (py "INPUT_ENVIRONMENT").
Proof.
  unfold parse_input.
  destruct (PyStr.truthy (environ_get environ (py "INPUT_GIT"))) eqn:Eg; [|done].
  apply truthy_true in Eg. cbn [negb].
  destruct (PyStr.truthy (environ_get environ (py "INPUT_APPS"))); [|done]. cbn [negb].
  destruct (safe_load (environ_get environ (py "INPUT_APPS"))) as [[]|]; try done.
  destruct (PyStr.truthy (environ_get environ (py "INPUT_EXCLUDE_ENV_VARS"))).
  - destruct (safe_load (environ_get environ (py "INPUT_EXCLUDE_ENV_VARS"))) as [[]|];
      try done; by intros [= <-].
  - by intros [= <-].
Qed.

(** X4. For an entry that [parse_input] returned, the clone is shallow,
    of the locator given in [INPUT_GIT], into the clone directory, and of
    the branch [INPUT_REF] exactly when that input is non-empty. *)
Theorem clone_command_of_inputs (safe_load : str -> result yaml)
        (environ : gmap str str) (e : entry) :
  parse_input safe_load environ = Ok e ->
  clone_cmd environ e
  = [py "git"; py "clone"; py "--depth"; py "1"]
    ++ (if PyStr.truthy (environ_get environ (py "INPUT_REF"))
        then [py "--branch"; environ_get environ (py "INPUT_REF")] else [])
    ++ [environ_get environ (py "INPUT_GIT"); PosixPath.to_str (clone_dir environ e)].
Proof.
  intros (Hg & _ & Hr & _)%parse_input_fields.
  unfold clone_cmd, git_args. rewrite Hr, Hg. unfold optional_input.
  destruct (PyStr.truthy (environ_get environ (py "INPUT_REF"))) eqn:E; [|done].
  by rewrite E.
Qed.

(** X5. For an entry that [parse_input] returned, the install and the
    shell-hook command get the same manifest, [pixi.toml] in the clone
    directory, and the same environment selection: [-e] with
    [INPUT_ENVIRONMENT], left out when that input is empty or is
    [default]; the name used in messages is that input, or [default]. *)
Theorem pixi_commands_of_inputs (safe_load : str -> result yaml)
        (environ : gmap str str) (pixi : str) (e : entry) :
  parse_input safe_load environ = Ok e ->
  let selected := environ_get environ (py "INPUT_ENVIRONMENT") in
  let tail :=
    [py "--manifest-path"; PosixPath.to_str (clone_dir environ e) ++ py "/pixi.toml"]
    ++ (if PyStr.truthy selected && negb (PyStr.eqb selected (py "default"))
        then [py "-e"; selected] else []) in
  entry_install_cmd environ pixi e = [pixi; py "install"] ++ tail
  /\ entry_shell_hook_cmd environ pixi e = [pixi; py "shell-hook"; py "--json"] ++ tail
  /\ environment_name e = (if PyStr.truthy selected then selected else py "default").
Proof.
  intros (_ & _ & _ & He)%parse_input_fields selected tail.
  destruct (clone_dir_parts environ e) as [Hne Hkeep].
  assert (environment_name e = (if PyStr.truthy selected then selected else py "default"))
    as Hname.
  { unfold environment_name. rewrite He. unfold optional_input. fold selected.
    by destruct (PyStr.truthy selected). }
  assert (environment_args (Some (environment_name e))
          = (if PyStr.truthy selected && negb (PyStr.eqb selected (py "default"))
             then [py "-e"; selected] else [])) as Hargs.
  { unfold environment_args. rewrite Hname.
    destruct (PyStr.truthy selected) eqn:E; [by rewrite E|done]. }
  unfold entry_install_cmd, entry_shell_hook_cmd, pixi_install_cmd, shell_hook_cmd, tail.
  rewrite Hargs, to_str_truediv_plain by done. done.
Qed.

Lemma parse_inputs_full : parse_input sample_safe_load inputs_full = Ok parsed_full.
Proof. vm_compute. reflexivity. Qed.

(** The commands for the sample inputs. *)
Lemma clone_command_of_inputs_witness :
  clone_cmd inputs_full parsed_full
  = [py "git"; py "clone"; py "--depth"; py "1"; py "--branch"; py "v1";
     py "https://example.org/tool.git"; py "/tmp/expose-pixi-apps/tool"].
Proof.
  rewrite (clone_command_of_inputs sample_safe_load inputs_full parsed_full
             parse_inputs_full).
  vm_compute. reflexivity.
Defined.

Lemma pixi_commands_of_inputs_witness :
  entry_install_cmd inputs_full (py "pixi") parsed_full
  = [py "pixi"; py "install"; py "--manifest-path";
     py "/tmp/expose-pixi-apps/tool/pixi.toml"; py "-e"; py "dev"].
Proof.
  rewrite (proj1 (pixi_commands_of_inputs sample_safe_load inputs_full (py "pixi")
                    parsed_full parse_inputs_full)).
  vm_compute. reflexivity.
Defined.

(** * More on the PATH diff and on the exclusion list *)

Lemma segments_of_app_sep (p b : str) :
  List.filter PyStr.truthy (PyStr.split pathsep_char (p ++ pathsep ++ b))
  = List.filter PyStr.truthy (PyStr.split pathsep_char p)
    ++ List.filter PyStr.truthy (PyStr.split pathsep_char b).
Proof.
  unfold pathsep. cbn [app]. by rewrite split_app_sep, List.filter_app.
Qed.

Lemma segments_snoc_sep (p : str) :
  List.filter PyStr.truthy (PyStr.split pathsep_char (p ++ pathsep))
  = List.filter PyStr.truthy (PyStr.split pathsep_char p).
Proof.
  unfold pathsep. rewrite split_app_sep, List.filter_app. simpl. by rewrite app_nil_r.
Qed.

(** X6. When the hook PATH is the ambient PATH with whole segments put in
    front (the part in front is empty or ends with the separator), the
    delta followed by the segments of the ambient PATH is the list of
    segments of the hook PATH: prepending the delta rebuilds the hook
    PATH. *)
Theorem path_delta_recombines (s ambient : str) :
  s = [] \/ (exists p, s = p ++ pathsep) ->
  path_segments (s ++ ambient) ambient
  ++ List.filter PyStr.truthy (PyStr.split pathsep_char ambient)
  = List.filter PyStr.truthy (PyStr.split pathsep_char (s ++ ambient)).
Proof.
  intros Hs. unfold path_segments. rewrite new_path_suffix.
  destruct Hs as [->|[p ->]]; [done|].
  rewrite segments_snoc_sep, <- app_assoc. by rewrite segments_of_app_sep.
Qed.

Lemma path_delta_recombines_witness :
  path_segments (py "X:Y:A:B") (py "A:B") ++ [py "A"; py "B"]
  = [py "X"; py "Y"; py "A"; py "B"].
Proof.
  assert (py "X:Y:" = [] \/ exists p, py "X:Y:" = p ++ pathsep) as H
    by (right; exists (py "X:Y"); reflexivity).
  exact (path_delta_recombines (py "X:Y:") (py "A:B") H).
Defined.

(** X7. Edge cases of the diff: an empty ambient PATH is a suffix of
    every hook PATH and removes nothing, so every segment is in the
    delta; a hook PATH equal to the ambient PATH gives an empty delta;
    so does an empty hook PATH, whatever the ambient PATH is. *)
Theorem path_diff_edge_cases (hook ambient : str) :
  path_segments hook [] = List.filter PyStr.truthy (PyStr.split pathsep_char hook)
  /\ path_diff ambient ambient = []
  /\ path_diff [] ambient = [].
Proof.
  split; [|split].
  - unfold path_segments. pose proof (new_path_suffix hook []) as H.
    rewrite app_nil_r in H. by rewrite H.
  - unfold path_diff, path_segments.
    pose proof (new_path_suffix [] ambient) as H. cbn [app] in H. by rewrite H.
  - unfold path_diff, path_segments, new_path.
    destruct (PyStr.endswith [] ambient); [|done].
    unfold PyStr.slice_to. by rewrite firstn_nil.
Qed.

Lemma in_string_items (k : str) (l : list yaml) :
  In k (string_items l) <-> In (YStr k) l.
Proof.
  unfold string_items. rewrite in_flat_map. split.
  - intros (item & Hin & Hk). destruct item; try done.
    destruct Hk as [->|[]]. done.
  - intros H. exists (YStr k). split; [done|by left].
Qed.

Lemma should_exclude_ext (k : str) (a b : option (list yaml)) :
  (forall x, (exists l, a = Some l /\ In (YStr x) l)
             <-> (exists l, b = Some l /\ In (YStr x) l)) ->
  _should_exclude k a = _should_exclude k b.
Proof.
  intros H. pose proof (should_exclude_spec k a) as Ha.
  pose proof (should_exclude_spec k b) as Hb. rewrite (H k) in Ha.
  destruct (_should_exclude k a), (_should_exclude k b); try done.
  - symmetry. apply Hb, Ha. done.
  - apply Ha, Hb. done.
Qed.

Lemma filtered_env_ext (env_vars : dict) (a b : option (list yaml)) :
  (forall x, (exists l, a = Some l /\ In (YStr x) l)
             <-> (exists l, b = Some l /\ In (YStr x) l)) ->
  filtered_env env_vars a = filtered_env env_vars b.
Proof.
  intros H. unfold filtered_env. apply filter_ext. intros kv.
  by rewrite (should_exclude_ext _ a b H).
Qed.

(** X8. Only the string items of the exclusion list count: two lists
    with the same string items filter alike, whatever their order,
    repetitions and other items (a YAML boolean or number excludes
    nothing), and an empty list filters like no list. *)
Theorem exclusion_by_string_items (env_vars : dict) (l : list yaml) :
  (forall l', (forall k, In k (string_items l) <-> In k (string_items l')) ->
              filtered_env env_vars (Some l) = filtered_env env_vars (Some l'))
  /\ filtered_env env_vars (Some l)
     = filtered_env env_vars (Some (List.map YStr (string_items l)))
  /\ filtered_env env_vars (Some []) = filtered_env env_vars None.
Proof.
  split; [|split].
  - intros l' H. apply filtered_env_ext. intros x. split.
    + intros (? & [= <-] & Hin). exists l'. split; [done|].
      by apply in_string_items, H, in_string_items.
    + intros (? & [= <-] & Hin). exists l. split; [done|].
      by apply in_string_items, H, in_string_items.
  - apply filtered_env_ext. intros x. split.
    + intros (? & [= <-] & Hin). eexists. split; [done|].
      apply in_map. by apply in_string_items.
    + intros (? & [= <-] & Hin). exists l. split; [done|].
      apply in_map_iff in Hin as (k & [= ->] & Hin). by apply in_string_items.
  - apply filtered_env_ext. intros x. split.
    + intros (? & [= <-] & []).
    + intros (? & [=] & _).
Qed.

(** * Publishing one name *)

Section PublishOne.

Variable environ : gmap str str.
Variable home : str.
Variables (prefix pdiff : str) (fenv : dict).

Local Abbreviation T := (dispatch_key environ home).
Local Abbreviation L := (link_key environ home).
Local Abbreviation C := (config_key environ home).
Local Abbreviation X := (config_text prefix pdiff fenv).
Local Abbreviation body := (publish_app environ home prefix pdiff fenv).

Lemma parent_truediv_plain (p : PosixPath.t) (x : str) :
  plain_name x = true -> PosixPath.parent (p /p x) = p.
Proof.
  intros Hx. rewrite truediv_plain by done. unfold PosixPath.parent.
  cbn [PosixPath.root PosixPath.parts]. rewrite removelast_last. by destruct p.
Qed.

Lemma config_parent (a : str) :
  plain_name a = true ->
  PosixPath.parent (config_path environ home a) = config_dir environ home.
Proof. intros Ha. apply parent_truediv_plain. by apply plain_name_json. Qed.

Lemma link_parent (a : str) :
  plain_name a = true ->
  PosixPath.parent (link_path environ home a) = bin_dir environ home.
Proof. apply parent_truediv_plain. Qed.

Lemma write_config_plain (a : str) (f : fs) :
  plain_name a = true ->
  PosixPath.to_str (config_dir environ home) ∈ dirs f ->
  C a ∉ dirs f ->
  write_text (config_path environ home a) (X a) f
  = (Ok tt, mkfs (dirs f) (<[C a := write_inode (C a) f]> (names f))
                 (<[write_inode (C a) f := X a]> (data f))).
Proof.
  intros Ha Hd Hc. unfold write_text, write_inode. fold (C a).
  rewrite decide_False by done. rewrite config_parent, decide_True by done.
  destruct (names f !! C a) eqn:E; [|done]. by rewrite (insert_id _ _ _ E).
Qed.

(** What one pass of the loop does for a plain name whose paths are not
    directories, according to the dispatch binary being there. *)
Lemma publish_app_plain (a : str) (f : fs) :
  plain_name a = true ->
  PosixPath.to_str (config_dir environ home) ∈ dirs f ->
  PosixPath.to_str (bin_dir environ home) ∈ dirs f ->
  C a ∉ dirs f ->
  L a ∉ dirs f ->
  body (YStr a) f
  = match names f !! T with
    | Some t => (Ok tt, after_link environ home a (X a) (write_inode (C a) f) t f)
    | None =>
        (Raise (if decide (T ∈ dirs f) then PermissionError else FileNotFoundError),
         after_unlink environ home a (X a) (write_inode (C a) f) f)
    end.
Proof.
  intros Ha Hcd Hbd Hc Hl.
  pose proof (plain_link_not_dispatch environ home a Ha) as HTL.
  pose proof (plain_config_not_dispatch environ home a Ha) as HCT.
  unfold publish_app, io_bind. rewrite write_config_plain by done.
  unfold unlink. cbn [dirs names data]. fold (L a). rewrite decide_False by done.
  unfold link. cbn [dirs names data]. fold T. fold (L a).
  rewrite lookup_delete_ne by (intros E; by apply HTL).
  rewrite lookup_insert_ne by done.
  destruct (names f !! T) as [t|] eqn:Et.
  - rewrite decide_False by done. rewrite lookup_delete_eq.
    rewrite link_parent, decide_True by done.
    unfold after_link. by rewrite insert_delete_eq.
  - unfold after_unlink. by destruct (decide (T ∈ dirs f)).
Qed.




End PublishOne.

(** * Publishing a list of names *)

Lemma for_each_app {A} (body : A -> io unit) (l1 l2 : list A) (f : fs) :
  for_each body (l1 ++ l2) f
  = match for_each body l1 f with
    | (Ok _, f1) => for_each body l2 f1
    | (Raise x, f1) => (Raise x, f1)
    end.
Proof.
  revert f. induction l1 as [|a l1 IH]; intros f; [done|].
  cbn [app for_each]. unfold io_bind. destruct (body a f) as [[[]|x] f']; [|done].
  apply IH.
Qed.

Section PublishAll.

Variable environ : gmap str str.
Variable home : str.

(** X12. Publishing a list of names is publishing a first part of it and
    then the rest on the file system that leaves; a failure in the first
    part ends the run there, with what was published so far in place and
    the rest untouched.  An item that is not a string fails with
    [TypeError] before anything is written for it. *)
Theorem expose_entry_sequential
        (env_vars : dict) (e : entry) (first rest : list yaml) (f : fs) :
  expose_entry environ home env_vars (with_apps e (first ++ rest)) f
  = match expose_entry environ home env_vars (with_apps e first) f with
    | (Ok _, f1) => expose_entry environ home env_vars (with_apps e rest) f1
    | (Raise x, f1) => (Raise x, f1)
    end
  /\ forall bad f1,
       (forall s, bad <> YStr s) ->
       expose_entry environ home env_vars (with_apps e first) f = (Ok tt, f1) ->
       expose_entry environ home env_vars (with_apps e (first ++ bad :: rest)) f
       = (Raise TypeError, f1).
Proof.
  assert (forall l1 l2 g,
             expose_entry environ home env_vars (with_apps e (l1 ++ l2)) g
             = match expose_entry environ home env_vars (with_apps e l1) g with
               | (Ok _, g1) => expose_entry environ home env_vars (with_apps e l2) g1
               | (Raise x, g1) => (Raise x, g1)
               end) as Hseq.
  { intros l1 l2 g.
    destruct (dict_get env_vars (py "CONDA_PREFIX")) as [prefix|] eqn:E.
    2:{ by rewrite !expose_entry_falsy_prefix by auto. }
    destruct (decide (prefix = [])) as [->|Hp].
    { by rewrite !expose_entry_falsy_prefix by auto. }
    rewrite !(expose_entry_truthy_prefix _ _ _ _ _ E Hp). cbn [apps exclude_env_vars with_apps].
    apply for_each_app. }
  split; [apply Hseq|].
  intros bad f1 Hbad Hfirst. rewrite Hseq, Hfirst.
  destruct (dict_get env_vars (py "CONDA_PREFIX")) as [prefix|] eqn:E.
  2:{ rewrite expose_entry_falsy_prefix in Hfirst by auto. discriminate Hfirst. }
  destruct (decide (prefix = [])) as [->|Hp].
  { rewrite expose_entry_falsy_prefix in Hfirst by auto. discriminate Hfirst. }
  rewrite (expose_entry_truthy_prefix _ _ _ _ _ E Hp). cbn [apps with_apps for_each].
  unfold io_bind. destruct bad; try done. by destruct (Hbad s).
Qed.


End PublishAll.

(** * The configuration text is ASCII *)

Module AsciiFacts.
Import Json.

Lemma printable_app (a b : str) :
  printable_text (a ++ b) = printable_text a && printable_text b.
Proof. apply forallb_app. Qed.

Lemma hexdigit_printable (d : N) :
  (d < 16)%N -> printable_text [hexdigit d] = true.
Proof.
  intros H. unfold printable_text, hexdigit. cbn [forallb]. rewrite andb_true_r.
  apply orb_true_iff. right. apply andb_true_iff.
  destruct (N.ltb_spec d 10); split; apply N.leb_le; lia.
Qed.

Lemma escape_u_printable (n : N) : printable_text (escape_u n) = true.
Proof.
  unfold escape_u.
  change (printable_text
            ([92%N; 117%N] ++ [hexdigit (n / 4096 mod 16)] ++ [hexdigit (n / 256 mod 16)]
             ++ [hexdigit (n / 16 mod 16)] ++ [hexdigit (n mod 16)]) = true).
  rewrite !printable_app, !hexdigit_printable by (apply N.mod_lt; lia). done.
Qed.

Lemma escape_char_printable (c : N) : printable_text (escape_char c) = true.
Proof.
  unfold escape_char.
  repeat match goal with |- context [if (c =? ?k)%N then _ else _] =>
    destruct (N.eqb c k); [reflexivity|] end.
  destruct ((32 <=? c)%N && (c <=? 126)%N) eqn:E.
  - unfold printable_text. cbn [forallb]. by rewrite E, orb_true_r.
  - destruct (c <? 65536)%N; [apply escape_u_printable|].
    by rewrite printable_app, !escape_u_printable.
Qed.

Lemma encode_string_printable (s : str) : printable_text (encode_string s) = true.
Proof.
  unfold encode_string. rewrite !printable_app.
  assert (printable_text (List.flat_map escape_char s) = true) as ->.
  { induction s as [|c s IH]; [done|]. cbn [List.flat_map].
    by rewrite printable_app, escape_char_printable, IH. }
  done.
Qed.

Lemma newline_indent_printable (level : nat) :
  printable_text (newline_indent level) = true.
Proof.
  unfold newline_indent. cbn [printable_text forallb].
  induction (2 * level)%nat as [|n IH]; [done|]. exact IH.
Qed.

Lemma join_printable (sep : str) (l : list str) :
  printable_text sep = true ->
  Forall (fun x => printable_text x = true) l ->
  printable_text (PyStr.join sep l) = true.
Proof.
  intros Hsep. induction 1 as [|x l Hx Hl IH]; [done|].
  destruct l as [|y l]; [done|].
  change (PyStr.join sep (x :: y :: l)) with (x ++ sep ++ PyStr.join sep (y :: l)).
  by rewrite !printable_app, Hx, Hsep, IH.
Qed.

Lemma dumps_strings_printable (level : nat) (d : dict) :
  printable_text
    (dumps_at level (JObj (List.map (fun kv => (fst kv, JStr (snd kv))) d))) = true.
Proof.
  destruct d as [|kv d]; [done|].
  set (ms := List.map (fun kv => (fst kv, JStr (snd kv))) (kv :: d)).
  change (dumps_at level (JObj ms))
    with (py "{" ++ newline_indent (S level)
          ++ PyStr.join (py "," ++ newline_indent (S level))
               (List.map (member_text (S level)) ms)
          ++ newline_indent level ++ py "}").
  rewrite !printable_app, !newline_indent_printable, join_printable.
  - done.
  - by rewrite printable_app, newline_indent_printable.
  - apply List.Forall_forall. intros x (m & <- & Hm)%in_map_iff.
    apply in_map_iff in Hm as (kv' & <- & _). unfold member_text. cbn [fst snd dumps_at].
    by rewrite !printable_app, !encode_string_printable.
Qed.

End AsciiFacts.

(** X14. Whatever the strings in it, the text of a record is made of
    newlines and printable ASCII characters only: every other code point
    is written as an escape, so the bytes in the file do not depend on
    the encoding [write_text] uses. *)
Theorem config_text_ascii (conda_prefix pdiff : str) (fenv : dict) (app : str) :
  printable_text (config_text conda_prefix pdiff fenv app) = true.
Proof.
  unfold config_text, Json.dumps, Config.to_json, trampoline_config.
  cbn [Config.exe Config.path_diff Config.env].
  set (envms := List.map (fun kv => (fst kv, Json.JStr (snd kv))) fenv).
  change (Json.dumps_at 0 (Json.JObj [(py "exe", Json.JStr (exe_path conda_prefix app));
                                      (py "path_diff", Json.JStr pdiff);
                                      (py "env", Json.JObj envms)]))
    with (py "{" ++ Json.newline_indent 1
          ++ ((Json.encode_string (py "exe") ++ py ": "
               ++ Json.encode_string (exe_path conda_prefix app))
              ++ (py "," ++ Json.newline_indent 1)
              ++ (Json.encode_string (py "path_diff") ++ py ": "
                  ++ Json.encode_string pdiff)
              ++ (py "," ++ Json.newline_indent 1)
              ++ (Json.encode_string (py "env") ++ py ": "
                  ++ Json.dumps_at 1 (Json.JObj envms)))
          ++ Json.newline_indent 0 ++ py "}").
  rewrite !AsciiFacts.printable_app, !AsciiFacts.encode_string_printable,
    !AsciiFacts.newline_indent_printable.
  unfold envms. by rewrite AsciiFacts.dumps_strings_printable.
Qed.

(** * What the decoder returns *)

Module DecoderFacts.
Import Json JsonFacts.
Local Open Scope N_scope.

Lemma scalar_text_cons (c : N) (s : str) :
  scalar_text (c :: s) = true ->
  c < 1114112 /\ is_high c = false /\ is_low c = false /\ scalar_text s = true.
Proof.
  cbn [scalar_text forallb]. intros [[H1 H2]%andb_true_iff H3]%andb_true_iff.
  apply N.ltb_lt in H1. apply negb_true_iff, orb_false_iff in H2 as [? ?]. done.
Qed.

Lemma scalar_text_skipn (n : nat) (s : str) :
  scalar_text s = true -> scalar_text (skipn n s) = true.
Proof.
  revert s. induction n as [|n IH]; intros s H; [done|].
  destruct s as [|c s]; [done|]. apply IH. by apply scalar_text_cons in H as (_ & _ & _ & ?).
Qed.

Lemma scalar_text_skip_ws (s : str) :
  scalar_text s = true -> scalar_text (skip_ws s) = true.
Proof.
  induction s as [|c s IH]; [done|]. intros H. simpl.
  destruct (is_ws c); [|done]. apply IH. by apply scalar_text_cons in H as (_ & _ & _ & ?).
Qed.

Lemma hexval_lt (c d : N) : hexval c = Some d -> d < 16.
Proof.
  unfold hexval.
  destruct ((48 <=? c) && (c <=? 57))%bool eqn:E1.
  { apply andb_true_iff in E1 as [?%N.leb_le ?%N.leb_le]. intros [= <-]. lia. }
  destruct ((97 <=? c) && (c <=? 102))%bool eqn:E2.
  { apply andb_true_iff in E2 as [?%N.leb_le ?%N.leb_le]. intros [= <-]. lia. }
  destruct ((65 <=? c) && (c <=? 70))%bool eqn:E3; [|done].
  apply andb_true_iff in E3 as [?%N.leb_le ?%N.leb_le]. intros [= <-]. lia.
Qed.

Lemma decode_u_lt (a b c d u : N) : decode_u a b c d = Some u -> u < 65536.
Proof.
  unfold decode_u.
  destruct (hexval a) eqn:Ea; [|done]. destruct (hexval b) eqn:Eb; [|done].
  destruct (hexval c) eqn:Ec; [|done]. destruct (hexval d) eqn:Ed; [|done].
  apply hexval_lt in Ea, Eb, Ec, Ed. intros [= <-]. lia.
Qed.

Lemma combined_range (hi lo : N) :
  is_high hi = true -> is_low lo = true ->
  let c := 65536 + N.lor (N.shiftl (hi - 55296) 10) (lo - 56320) in
  65536 <= c /\ c < 1114112.
Proof.
  unfold is_high, is_low.
  intros [?%N.leb_le ?%N.leb_le]%andb_true_iff [?%N.leb_le ?%N.leb_le]%andb_true_iff.
  cbv zeta. rewrite lor_shiftl_add by (change (2 ^ 10) with 1024; lia).
  change (2 ^ 10) with 1024. lia.
Qed.

Lemma not_surrogate_above (c : N) : 65536 <= c -> is_high c = false /\ is_low c = false.
Proof.
  intros H. unfold is_high, is_low. split; apply andb_false_iff; right; apply N.leb_gt; lia.
Qed.

Lemma not_surrogate_below (c : N) : c < 55296 -> is_high c = false /\ is_low c = false.
Proof.
  intros H. unfold is_high, is_low. split; apply andb_false_iff; left; apply N.leb_gt; lia.
Qed.

Lemma high_not_low (c : N) : is_high c = true -> is_low c = false.
Proof.
  unfold is_high, is_low. intros [_ ?%N.leb_le]%andb_true_iff.
  apply andb_false_iff. left. apply N.leb_gt. lia.
Qed.

(** One more code point at the end of a string. *)
Lemma json_text_snoc (l : str) (c : N) :
  json_text l = true -> c < 1114112 ->
  (is_low c = true -> is_high (List.last l 0) = false) ->
  json_text (l ++ [c]) = true.
Proof.
  intros Hl Hc Hlast. induction l as [|x l IH].
  - cbn [app json_text]. rewrite andb_false_r, andb_true_r. cbn [negb].
    rewrite andb_true_r. by apply N.ltb_lt.
  - apply json_text_cons in Hl as (Hx & Hnext & Hl).
    cbn [app json_text]. rewrite IH; [|done|].
    + rewrite andb_true_r. apply andb_true_iff. split; [by apply N.ltb_lt|].
      apply negb_true_iff. destruct (is_high x) eqn:Eh; [|done]. cbn [andb].
      destruct l as [|y l]; cbn [app].
      * destruct (is_low c) eqn:El; [|done]. specialize (Hlast eq_refl).
        simpl in Hlast. congruence.
      * by apply Hnext.
    + intros El. specialize (Hlast El). by destruct l.
Qed.

Lemma json_text_push (acc : str) (c : N) :
  json_text (rev acc) = true -> c < 1114112 ->
  (is_low c = true -> match acc with h :: _ => is_high h = false | [] => True end) ->
  json_text (rev (c :: acc)) = true.
Proof.
  intros Hacc Hc Hlast. cbn [rev]. apply json_text_snoc; [done|done|].
  intros El. specialize (Hlast El). destruct acc as [|h acc]; [done|].
  cbn [rev]. by rewrite last_last.
Qed.

Lemma backslash_plain (esc ch : N) : backslash esc = Some ch -> ch < 55296.
Proof.
  unfold backslash.
  repeat match goal with |- context [if (esc =? ?k) then _ else _] =>
    destruct (esc =? k); [intros [= <-]; lia|] end.
  done.
Qed.

(** The scanner returns a string that survives the JSON text, and leaves
    scalar text behind. *)
Lemma scanstring_ok (n : nat) :
  forall (s acc out rest : str),
    (length s <= n)%nat ->
    scalar_text s = true ->
    json_text (rev acc) = true ->
    tail_ok acc s ->
    scanstring s acc = Some (out, rest) ->
    json_text out = true /\ scalar_text rest = true.
Proof.
  induction n as [|n IH]; intros s acc out rest Hlen Hs Hacc Htail H.
  { destruct s; [done|simpl in Hlen; lia]. }
  destruct s as [|c r]; [done|].
  pose proof (scalar_text_cons _ _ Hs) as (Hc & Hch & Hcl & Hr).
  cbn [scanstring] in H. simpl in Hlen.
  destruct (N.eqb_spec c 34) as [->|H34].
  { injection H as <- <-. done. }
  destruct (N.eqb_spec c 92) as [->|H92].
  2:{ destruct (c <? 32); [done|].
      apply (IH r (c :: acc) out rest);
        [lia|done| |unfold tail_ok; by rewrite Hch|done].
      apply json_text_push; [done|done|]. by rewrite Hcl. }
  destruct r as [|esc r1]; [done|].
  pose proof (scalar_text_cons _ _ Hr) as (_ & _ & _ & Hr1). simpl in Hlen.
  destruct (N.eqb_spec esc 117) as [->|H117]; cbn [negb] in H.
  - destruct r1 as [|a [|b [|c' [|d r2]]]]; try done.
    assert (scalar_text r2 = true) as Hr2 by (by apply (scalar_text_skipn 4) in Hr1).
    simpl in Hlen.
    destruct (decode_u a b c' d) as [uni|] eqn:Ed; [|done].
    pose proof (decode_u_lt _ _ _ _ _ Ed) as Huni.
    assert (json_text (rev (uni :: acc)) = true) as Hpush.
    { apply json_text_push; [done|lia|]. intros El.
      destruct acc as [|h acc]; [done|]. destruct (is_high h) eqn:Eh; [|done].
      destruct (Htail Eh eq_refl eq_refl)
        as (a' & b' & c'' & d' & r4 & uni2 & [= <- <- <- <- <-] & Hd2 & Hl2).
      congruence. }
    assert (forall out rest,
               (is_high uni = true -> no_low_escape r2) ->
               scanstring r2 (uni :: acc) = Some (out, rest) ->
               json_text out = true /\ scalar_text rest = true) as Halone.
    { intros o re Hn Hscan. apply (IH r2 (uni :: acc) o re); [lia|done|done|exact Hn|done]. }
    destruct r2 as [|bs [|u r3]]; [by apply Halone|by apply Halone|].
    destruct (is_high uni) eqn:Eh; cbn [andb] in H.
    2:{ apply Halone; [done|exact H]. }
    destruct (N.eqb_spec bs 92) as [->|Hbs]; cbn [andb] in H.
    2:{ apply Halone; [|exact H]. intros _ ?. done. }
    destruct (N.eqb_spec u 117) as [->|Hu].
    2:{ apply Halone; [|exact H]. intros _ _ ?. done. }
    destruct r3 as [|a2 [|b2 [|c2 [|d2 r4]]]]; try done.
    destruct (decode_u a2 b2 c2 d2) as [uni2|] eqn:Ed2; [|done].
    destruct (is_low uni2) eqn:El2.
    + pose proof (combined_range uni uni2 Eh El2) as [Hge Hlt]. cbv zeta in Hge, Hlt.
      pose proof (not_surrogate_above _ Hge) as [Hnh Hnl].
      assert (scalar_text r4 = true) as Hr4 by (by apply (scalar_text_skipn 6) in Hr2).
      simpl in Hlen.
      set (comb := 65536 + N.lor (N.shiftl (uni - 55296) 10) (uni2 - 56320)) in *.
      apply (IH r4 (comb :: acc) out rest); [lia|done| | |exact H].
      * apply json_text_push; [done|done|]. by rewrite Hnl.
      * unfold tail_ok. by rewrite Hnh.
    + apply Halone; [|exact H]. intros _ _ _.
      do 4 eexists. exists r4, uni2. done.
  - destruct (backslash esc) as [ch|] eqn:Eb; [|done].
    pose proof (backslash_plain _ _ Eb) as Hch'.
    pose proof (not_surrogate_below _ Hch') as [Hnh Hnl].
    apply (IH r1 (ch :: acc) out rest); [lia|done| | |exact H].
    + apply json_text_push; [done|lia|]. by rewrite Hnl.
    + unfold tail_ok. by rewrite Hnh.
Qed.

End DecoderFacts.

Module ValueFacts.
Import Json JsonFacts DecoderFacts.

Lemma value_ok_obj (members : list (str * value)) :
  value_ok (JObj members) <-> Forall member_ok members.
Proof.
  induction members as [|kv ms IH].
  - split; [constructor|done].
  - change (value_ok (JObj (kv :: ms)))
      with ((json_text (fst kv) = true /\ value_ok (snd kv)) /\ value_ok (JObj ms)).
    rewrite IH. split.
    + intros [? ?]. by constructor.
    + intros H. by inversion H.
Qed.

Lemma value_ok_arr (items : list value) :
  value_ok (JArr items) <-> Forall value_ok items.
Proof.
  induction items as [|x l IH].
  - split; [constructor|done].
  - change (value_ok (JArr (x :: l))) with (value_ok x /\ value_ok (JArr l)).
    rewrite IH. split.
    + intros [? ?]. by constructor.
    + intros H. by inversion H.
Qed.

Lemma scanstring_fresh (s out rest : str) :
  scalar_text s = true ->
  scanstring s [] = Some (out, rest) ->
  json_text out = true /\ scalar_text rest = true.
Proof. intros Hs H. by apply (scanstring_ok (length s) s [] out rest). Qed.

(** What a value scanner must guarantee. *)
Local Abbreviation scanner_ok sc :=
  (forall (s : str) (v : value) (r : str),
      scalar_text s = true -> sc s = Some (v, r) ->
      value_ok v /\ scalar_text r = true).

Lemma scan_members_ok_out (fuel : nat) (sc : str -> option (value * str)) :
  scanner_ok sc ->
  forall (s : str) (acc ms : list (str * value)) (r : str),
    scalar_text s = true ->
    Forall member_ok acc ->
    scan_members fuel sc s acc = Some (ms, r) ->
    Forall member_ok ms /\ scalar_text r = true.
Proof.
  intros Hsc. induction fuel as [|fuel IH]; intros s acc ms r Hs Hacc H; [done|].
  cbn [scan_members] in H. destruct s as [|q s]; [done|].
  destruct (negb (q =? 34)%N); [done|].
  apply scalar_text_cons in Hs as (_ & _ & _ & Hs).
  destruct (scanstring s []) as [[key r1]|] eqn:Ek; [|done].
  destruct (scanstring_fresh _ _ _ Hs Ek) as [Hkey Hr1].
  apply scalar_text_skip_ws in Hr1.
  destruct (skip_ws r1) as [|colon r2]; [done|].
  destruct (negb (colon =? 58)%N); [done|].
  apply scalar_text_cons in Hr1 as (_ & _ & _ & Hr2).
  apply scalar_text_skip_ws in Hr2.
  destruct (sc (skip_ws r2)) as [[v r3]|] eqn:Ev; [|done].
  destruct (Hsc _ _ _ Hr2 Ev) as [Hv Hr3].
  apply scalar_text_skip_ws in Hr3.
  destruct (skip_ws r3) as [|c r4]; [done|].
  apply scalar_text_cons in Hr3 as (_ & _ & _ & Hr4).
  assert (Forall member_ok ((key, v) :: acc)) as Hacc' by (by constructor).
  destruct (c =? 125)%N.
  { injection H as <- <-. split; [|done].
    change (rev acc ++ [(key, v)]) with (rev ((key, v) :: acc)). by apply List.Forall_rev. }
  destruct (c =? 44)%N; [|done].
  apply (IH _ _ _ _ (scalar_text_skip_ws _ Hr4) Hacc' H).
Qed.

Lemma scan_items_ok_out (fuel : nat) (sc : str -> option (value * str)) :
  scanner_ok sc ->
  forall (s : str) (acc xs : list value) (r : str),
    scalar_text s = true ->
    Forall value_ok acc ->
    scan_items fuel sc s acc = Some (xs, r) ->
    Forall value_ok xs /\ scalar_text r = true.
Proof.
  intros Hsc. induction fuel as [|fuel IH]; intros s acc xs r Hs Hacc H; [done|].
  cbn [scan_items] in H.
  destruct (sc s) as [[v r1]|] eqn:Ev; [|done].
  destruct (Hsc _ _ _ Hs Ev) as [Hv Hr1].
  apply scalar_text_skip_ws in Hr1.
  destruct (skip_ws r1) as [|c r2]; [done|].
  apply scalar_text_cons in Hr1 as (_ & _ & _ & Hr2).
  assert (Forall value_ok (v :: acc)) as Hacc' by (by constructor).
  destruct (c =? 93)%N.
  { injection H as <- <-. split; [|done].
    change (rev acc ++ [v]) with (rev (v :: acc)). by apply List.Forall_rev. }
  destruct (c =? 44)%N; [|done].
  apply (IH _ _ _ _ (scalar_text_skip_ws _ Hr2) Hacc' H).
Qed.

Lemma scan_once_ok (fuel : nat) : scanner_ok (scan_once fuel).
Proof.
  induction fuel as [|fuel IH]; intros s v r Hs H; [done|].
  cbn [scan_once] in H. destruct s as [|c s']; [done|].
  pose proof (scalar_text_cons _ _ Hs) as (_ & _ & _ & Hs').
  destruct (c =? 34)%N.
  { destruct (scanstring s' []) as [[x r']|] eqn:Ex; [|done].
    injection H as <- <-. by apply scanstring_fresh in Ex. }
  destruct (c =? 123)%N.
  { pose proof (scalar_text_skip_ws _ Hs') as Hw.
    destruct (skip_ws s') as [|c1 r1]; [done|].
    destruct (c1 =? 125)%N.
    { injection H as <- <-. split; [done|].
      by apply scalar_text_cons in Hw as (_ & _ & _ & ?). }
    destruct (scan_members fuel (scan_once fuel) (c1 :: r1) []) as [[ms r']|] eqn:Em; [|done].
    injection H as <- <-.
    destruct (scan_members_ok_out fuel _ IH _ _ _ _ Hw ltac:(constructor) Em) as [Hms Hr'].
    split; [by apply value_ok_obj|done]. }
  destruct (c =? 91)%N.
  { pose proof (scalar_text_skip_ws _ Hs') as Hw.
    destruct (skip_ws s') as [|c1 r1]; [done|].
    destruct (c1 =? 93)%N.
    { injection H as <- <-. split; [done|].
      by apply scalar_text_cons in Hw as (_ & _ & _ & ?). }
    destruct (scan_items fuel (scan_once fuel) (c1 :: r1) []) as [[xs r']|] eqn:Em; [|done].
    injection H as <- <-.
    destruct (scan_items_ok_out fuel _ IH _ _ _ _ Hw ltac:(constructor) Em) as [Hxs Hr'].
    split; [by apply value_ok_arr|done]. }
  destruct (PyStr.startswith (c :: s') (py "null")).
  { injection H as <- <-. split; [done|]. exact (scalar_text_skipn 4 (c :: s') Hs). }
  destruct (PyStr.startswith (c :: s') (py "true")).
  { injection H as <- <-. split; [done|]. exact (scalar_text_skipn 4 (c :: s') Hs). }
  destruct (PyStr.startswith (c :: s') (py "false")); [|done].
  injection H as <- <-. split; [done|]. exact (scalar_text_skipn 5 (c :: s') Hs).
Qed.

Lemma loads_ok (s : str) (v : value) :
  scalar_text s = true -> loads s = Some v -> value_ok v.
Proof.
  intros Hs. unfold loads.
  destruct (scan_once _ _) as [[v' r]|] eqn:E; [|done].
  destruct (skip_ws r); [|done]. intros [= <-].
  by apply (scan_once_ok _ _ _ _ (scalar_text_skip_ws _ Hs)) in E as [? _].
Qed.

(** *** The dictionary built from the members *)

Lemma dict_set_keys {V} (d : list (str * V)) (k : str) (v : V) :
  List.map fst (Config.dict_set d k v)
  = if existsb (PyStr.eqb k) (List.map fst d) then List.map fst d
    else List.map fst d ++ [k].
Proof.
  induction d as [|[k' x] d IH]; [done|]. cbn [Config.dict_set List.map fst existsb].
  destruct (PyStr.eqb k' k) eqn:E.
  - apply eqb_eq in E as ->. by rewrite eqb_refl.
  - assert (PyStr.eqb k k' = false) as ->.
    { apply eqb_neq. apply eqb_neq in E. congruence. }
    cbn [orb List.map fst]. rewrite IH. by destruct (existsb _ _).
Qed.

Lemma dict_set_nodup {V} (d : list (str * V)) (k : str) (v : V) :
  List.NoDup (List.map fst d) -> List.NoDup (List.map fst (Config.dict_set d k v)).
Proof.
  intros H. rewrite dict_set_keys. destruct (existsb _ _) eqn:E; [done|].
  apply List.NoDup_app; [done|repeat constructor; intros []|].
  intros x Hx [->|[]].
  assert (existsb (PyStr.eqb x) (List.map fst d) = true); [|congruence].
  apply existsb_exists. exists x. split; [done|apply eqb_refl].
Qed.

Lemma dict_set_forall {V} (P : str * V -> Prop) (d : list (str * V)) (k : str) (v : V) :
  Forall P d -> P (k, v) -> Forall P (Config.dict_set d k v).
Proof.
  intros Hd Hkv. induction Hd as [|[k' x] d Hx Hd IH]; [by repeat constructor|].
  cbn [Config.dict_set]. destruct (PyStr.eqb k' k) eqn:E.
  - apply eqb_eq in E as ->. by constructor.
  - by constructor.
Qed.

Lemma dict_of_pairs_ok {V} (P : str * V -> Prop) (members : list (str * V)) :
  Forall P members ->
  List.NoDup (List.map fst (Config.dict_of_pairs members))
  /\ Forall P (Config.dict_of_pairs members).
Proof.
  unfold Config.dict_of_pairs. intros H.
  assert (forall acc, List.NoDup (List.map fst acc) -> Forall P acc ->
            List.NoDup (List.map fst
              (fold_left (fun d kv => Config.dict_set d (fst kv) (snd kv)) members acc))
            /\ Forall P (fold_left (fun d kv => Config.dict_set d (fst kv) (snd kv))
                           members acc)) as Hgen.
  { induction H as [|[k v] ms Hkv Hms IH]; intros acc Hnd Hacc; [done|].
    cbn [fold_left fst snd]. apply IH.
    - by apply dict_set_nodup.
    - by apply dict_set_forall. }
  apply Hgen; constructor.
Qed.

Lemma lookup_In {V} (d : list (str * V)) (key : str) (v : V) :
  Config.lookup d key = Some v -> In (key, v) d.
Proof.
  induction d as [|[k x] d IH]; [done|]. cbn [Config.lookup].
  destruct (PyStr.eqb k key) eqn:E.
  - apply eqb_eq in E as ->. intros [= ->]. by left.
  - intros H. right. by apply IH.
Qed.

Lemma as_dict_ok (d : list (str * value)) (env : dict) :
  Config.as_dict d = Some env ->
  List.map fst env = List.map fst d
  /\ (Forall member_ok d -> json_dict env = true).
Proof.
  revert env. induction d as [|[k v] d IH]; intros env.
  - intros [= <-]. done.
  - cbn [Config.as_dict]. destruct v; try done. cbn [Config.as_str].
    destruct (Config.as_dict d) as [rest|]; [|done]. intros [= <-].
    destruct (IH rest eq_refl) as [Hk Hj]. split; [cbn [List.map fst]; by rewrite Hk|].
    intros Hall. inversion Hall as [|? ? [Hkey Hval] Hd]; subst.
    specialize (Hj Hd). unfold json_dict in *. cbn [forallb fst snd value_ok] in *.
    by rewrite Hkey, Hval, Hj.
Qed.

End ValueFacts.


(** * The further theorems at the sample run *)





Lemma sample_hook_stdout_scalar : scalar_text sample_hook_stdout = true.
Proof. vm_compute. reflexivity. Qed.

Lemma sample_hook_stdout_decodes : hook_environment sample_hook_stdout = Some sample_captured.
Proof. vm_compute. reflexivity. Qed.

